(** * robot_self_filter::SelfMask -- a shallow embedding of self_mask.cpp

    The robot self mask labels every point of a sensor scan as INSIDE,
    OUTSIDE or SHADOW with respect to the links of the robot.

    Conventions of the embedding.
    - [double], [float] and [tfScalar] are exact rationals ([Q]).
    - [tf::Vector3], [Eigen::Vector3d] and [pcl::PointXYZ] are the one type
      [Vec3]; the conversions [vectorTFToEigen] / [vectorEigenToTF] copy
      the three coordinates and are the identity here.
    - The member variables of [SelfMask] are the record [SelfMask]; every
      member function takes the record and returns the updated one.
    - tf, urdf, geometric_shapes and <algorithm> are libraries:
      what [self_mask.cpp] calls from them is the interface [Externals],
      what it relies on is [ExternalsLaws], and every definition and theorem
      is parametric in them.  The second half of the file runs the mask in
      one implementation of the interface, a world of axis-parallel boxes.
    - ROS console output is a list of [LogMsg], one constructor per
      ROS_WARN / ROS_ERROR call site (ROS_DEBUG output is left out). *)

From Stdlib Require Import QArith.
From stdpp Require Import base list strings sorting.

Close Scope Q_scope.
Set Default Proof Using "Type".

(** * The embedding *)

(** ** Scalars and vectors *)

Definition Qltb (x y : Q) : bool := negb (Qle_bool y x).

Record Vec3 := mkVec3 { vx : Q; vy : Q; vz : Q }.

Definition vzero : Vec3 := mkVec3 0 0 0.

Definition vsub (a b : Vec3) : Vec3 :=
  mkVec3 (vx a - vx b) (vy a - vy b) (vz a - vz b).

Definition vdot (a b : Vec3) : Q :=
  (vx a * vx b + vy a * vy b + vz a * vz b)%Q.

Definition squaredNorm (a : Vec3) : Q := vdot a a.

(** [tf::Vector3::operator/=].  Dividing by [0.0] leaves components that
    are not numbers; that outcome is [None]. *)
Definition vdiv (a : Vec3) (s : Q) : option Vec3 :=
  if Qeq_bool s 0 then None
  else Some (mkVec3 (vx a / s) (vy a / s) (vz a / s)).

(** [dir.dot(w) >= 0.0] for a direction that went through [vdiv]: every
    comparison with a NaN is false. *)
Definition dot_nonneg (dir : option Vec3) (w : Vec3) : bool :=
  match dir with
  | Some d => Qle_bool 0 (vdot d w)
  | None => false
  end.

Record Quaternion := mkQuaternion { qx : Q; qy : Q; qz : Q; qw : Q }.

(** [bodies::BoundingSphere] *)
Record BoundingSphere := mkBoundingSphere { center : Vec3; radius : Q }.

(** A default-constructed [BoundingSphere], as [std::vector::resize]
    appends it. *)
Definition BoundingSphere0 : BoundingSphere := mkBoundingSphere vzero 0.

(** ** urdf data read by [configure] *)

Inductive Geometry :=
| urdf_Sphere (radius : Q)
| urdf_Box (dim : Vec3)
| urdf_Cylinder (radius length : Q)
| urdf_Mesh (filename : string) (scale : Vec3)
| urdf_Unknown (type : Z).

Record Pose := mkPose { position : Vec3; rotation : Quaternion }.

Record Collision := mkCollision { geometry : option Geometry; origin : Pose }.

Record Link := mkLink { collision : option Collision }.

(** ** The mask values and the configuration entries *)

(** The mask values [INSIDE], [OUTSIDE] and [SHADOW] of [self_mask.h]. *)
Inductive Label := INSIDE | OUTSIDE | SHADOW.

Definition Label_eqb (a b : Label) : bool :=
  match a, b with
  | INSIDE, INSIDE | OUTSIDE, OUTSIDE | SHADOW, SHADOW => true
  | _, _ => false
  end.

#[export] Instance Label_eq_dec : EqDecision Label.
Proof. solve_decision. Defined.

(** [struct LinkInfo], with the members [configure] reads. *)
Record LinkInfo := mkLinkInfo { li_name : string; li_padding : Q; li_scale : Q }.

(** Timestamps ([ros::Time]) in nanoseconds. *)
Definition Time := Z.

Inductive LogMsg :=
| ErrorParseURDF
| ErrorModelNotFound
| WarnEmptyMeshFilename
| ErrorUnknownGeometryType (type : Z)
| WarnNoCollisionGeometry (link : string)
| ErrorConstructShape (link : string)
| WarnCreateBody (link : string)
| WarnMissingLinks (missing : string)
| WarnNoLinks
| ErrorWaitForTransform (source target : string)
| ErrorLookupTransform (source target : string).

(** ** The libraries behind [SelfMask] *)

(** What [self_mask.cpp] calls from tf, urdf, geometric_shapes and
    <algorithm>. *)
Class Externals := {
  (* tf *)
  Transform : Type;
  tf_Transform : Quaternion -> Vec3 -> Transform;
  tf_identity : Transform;
  tf_mul : Transform -> Transform -> Transform;
  getOrigin : Transform -> Vec3;
  tfSqrt : Q -> Q;
  (* urdf *)
  Model : Type;
  initString : string -> option Model;
  getLink : Model -> string -> option Link;
  (* geometric_shapes: shapes *)
  Shape : Type;
  shapes_Sphere : Q -> Shape;
  shapes_Box : Q -> Q -> Q -> Shape;
  shapes_Cylinder : Q -> Q -> Shape;
  createMeshFromResource : string -> Vec3 -> option Shape;
  (* geometric_shapes: bodies *)
  Body : Type;
  createBodyFromShape : Shape -> option Body;
  setScale : Q -> Body -> Body;
  setPadding : Q -> Body -> Body;
  setPose : Transform -> Body -> Body;
  computeVolume : Body -> Q;
  computeBoundingSphere : Body -> BoundingSphere;
  containsPoint : Body -> Vec3 -> bool;
  (* [intersectsRay origin dir &intersections count]: the flag returned
     and the vector behind the pointer after the call *)
  intersectsRay : Body -> Vec3 -> Vec3 -> list Vec3 -> nat -> bool * list Vec3;
  mergeBoundingSpheres : list BoundingSphere -> BoundingSphere;
  (* <algorithm> *)
  std_sort : forall A : Type, (A -> A -> bool) -> list A -> list A
}.

Arguments std_sort {_ _} _ _.

(** The comparator contract of [std::sort]: a strict weak ordering. *)
Record StrictWeakOrder {A : Type} (comp : A -> A -> bool) : Prop := {
  swo_irrefl : forall x, comp x x = false;
  swo_trans : forall x y z, comp x y = true -> comp y z = true -> comp x z = true;
  swo_negtrans : forall x y z, comp x y = false -> comp y z = false -> comp x z = false
}.

(** What the theorems below rely on from the libraries.  A ray test that
    reports a hit has stored at least one point.  The result of [std::sort]
    is a rearrangement of its input in which, for a strict weak ordering, no
    element is ordered before an earlier one; nothing is promised about the
    relative order of equivalent elements. *)
Record ExternalsLaws (E : Externals) : Prop := {
  intersectsRay_stored : forall b o d ints n,
    (intersectsRay b o d ints n).1 = true -> (intersectsRay b o d ints n).2 <> [];
  std_sort_perm : forall A (comp : A -> A -> bool) l, std_sort comp l ≡ₚ l;
  std_sort_sorted : forall A (comp : A -> A -> bool) l,
    StrictWeakOrder comp ->
    StronglySorted (fun a b => comp b a = false) (std_sort comp l)
}.

(** [ros::NodeHandle]: the parameter server. *)
Record NodeHandle := mkNodeHandle { getParam : string -> option string }.

Section SelfMask.
Context `{E : Externals}.

(** [tf::TransformListener].  [waitForTransform] and [lookupTransform] take
    the target frame, the source frame and the time; a lookup that throws
    [tf::TransformException] is [None]. *)
Record TransformListener := mkTransformListener {
  waitForTransform : string -> string -> Time -> bool;
  lookupTransform : string -> string -> Time -> option Transform
}.

(** [struct SeeLink], with the members [self_mask.cpp] reads and writes. *)
Record SeeLink := mkSeeLink {
  name : string;
  body : Body;
  unscaledBody : Body;
  constTransf : Transform;
  volume : Q
}.

(** Modelled from the spec: the comparator [struct SortBodies] is declared in
    [self_mask.h], which [self_mask.cpp] only includes; the spec orders the
    bodies by descending volume, and [configure] comments the call with
    "put larger volume bodies first". *)
Definition SortBodies (b1 b2 : SeeLink) : bool := Qltb (volume b2) (volume b1).

Record SelfMask := mkSelfMask {
  bodies_ : list SeeLink;
  bspheres_ : list BoundingSphere;
  bspheresRadius2_ : list Q;
  sensor_pos_ : Vec3;
  min_sensor_dist_ : Q
}.

Definition freeMemory (sm : SelfMask) : SelfMask :=
  mkSelfMask [] (bspheres_ sm) (bspheresRadius2_ sm) (sensor_pos_ sm) (min_sensor_dist_ sm).

Definition urdfPose2TFTransform (pose : Pose) : Transform :=
  tf_Transform (rotation pose) (position pose).

Definition constructShape (geom : Geometry) : option Shape * list LogMsg :=
  match geom with
  | urdf_Sphere r => (Some (shapes_Sphere r), [])
  | urdf_Box dim => (Some (shapes_Box (vx dim) (vy dim) (vz dim)), [])
  | urdf_Cylinder r l => (Some (shapes_Cylinder r l), [])
  | urdf_Mesh filename scale =>
      if bool_decide (filename = "") then (None, [WarnEmptyMeshFilename])
      else (createMeshFromResource filename scale, [])
  | urdf_Unknown t => (None, [ErrorUnknownGeometryType t])
  end.

(** The state of the loop of [configure]: [bodies_], the [missing] stream
    and the console. *)
Record ConfigureLoop := mkConfigureLoop {
  cl_bodies : list SeeLink;
  cl_missing : string;
  cl_log : list LogMsg
}.

(** One iteration of the loop over [links]. *)
Definition configure_link (urdfModel : Model) (st : ConfigureLoop) (li : LinkInfo)
  : ConfigureLoop :=
  match getLink urdfModel (li_name li) with
  | None =>
      mkConfigureLoop (cl_bodies st) (cl_missing st +:+ " " +:+ li_name li) (cl_log st)
  | Some link =>
      match collision link with
      | Some (mkCollision (Some geom) orig) =>
          let '(shape, msgs) := constructShape geom in
          match shape with
          | None =>
              mkConfigureLoop (cl_bodies st) (cl_missing st)
                (cl_log st ++ msgs ++ [ErrorConstructShape (li_name li)])
          | Some shape =>
              match createBodyFromShape shape with
              | Some b =>
                  let scaled := setPadding (li_padding li) (setScale (li_scale li) b) in
                  let sl := mkSeeLink (li_name li) scaled b
                              (urdfPose2TFTransform orig) (computeVolume scaled) in
                  mkConfigureLoop (cl_bodies st ++ [sl]) (cl_missing st) (cl_log st ++ msgs)
              | None =>
                  mkConfigureLoop (cl_bodies st) (cl_missing st)
                    (cl_log st ++ msgs ++ [WarnCreateBody (li_name li)])
              end
          end
      | _ =>
          mkConfigureLoop (cl_bodies st) (cl_missing st)
            (cl_log st ++ [WarnNoCollisionGeometry (li_name li)])
      end
  end.

Definition configure_links (urdfModel : Model) (links : list LinkInfo) : ConfigureLoop :=
  foldl (configure_link urdfModel) (mkConfigureLoop [] "" []) links.

(** [SelfMask::configure]: the value returned, the object afterwards and the
    console output. *)
Definition configure (nh_ : NodeHandle) (links : list LinkInfo) (sm : SelfMask)
  : bool * SelfMask * list LogMsg :=
  let sm0 := freeMemory sm in
  let sm0 := mkSelfMask (bodies_ sm0) (bspheres_ sm0) (bspheresRadius2_ sm0)
               vzero (min_sensor_dist_ sm0) in
  match getParam nh_ "robot_description" with
  | Some content =>
      match initString content with
      | None => (false, sm0, [ErrorParseURDF])
      | Some urdfModel =>
          let st := configure_links urdfModel links in
          let log1 :=
            if bool_decide (0 < String.length (cl_missing st))
            then cl_log st ++ [WarnMissingLinks (cl_missing st)] else cl_log st in
          let log2 :=
            match cl_bodies st with [] => log1 ++ [WarnNoLinks] | _ => log1 end in
          let sorted := std_sort SortBodies (cl_bodies st) in
          (true,
           mkSelfMask sorted
             (resize (length sorted) BoundingSphere0 (bspheres_ sm0))
             (resize (length sorted) 0%Q (bspheresRadius2_ sm0))
             vzero (min_sensor_dist_ sm0),
           log2)
      end
  | None => (false, sm0, [ErrorModelNotFound])
  end.

Definition getLinkNames (sm : SelfMask) (frames : list string) : list string :=
  frames ++ (name <$> bodies_ sm).

(** [pcl::PointCloud<pcl::PointXYZ>]: the header fields read here and the
    points. *)
Record PointCloud := mkPointCloud {
  frame_id : string;
  stamp : Time;
  points : list Vec3
}.

(** ** Frame updates *)

(** [computeBoundingSpheres], iteration [i].  ([bspheres_] has the size of
    [bodies_] after [configure]; outside that the stores are out of range
    and are dropped here.) *)
Definition computeBoundingSphere_at (sm : SelfMask) (i : nat) : SelfMask :=
  match bodies_ sm !! i with
  | Some sl =>
      let s := computeBoundingSphere (body sl) in
      mkSelfMask (bodies_ sm)
        (<[i := s]> (bspheres_ sm))
        (<[i := (radius s * radius s)%Q]> (bspheresRadius2_ sm))
        (sensor_pos_ sm) (min_sensor_dist_ sm)
  | None => sm
  end.

Definition computeBoundingSpheres (sm : SelfMask) : SelfMask :=
  foldl computeBoundingSphere_at sm (seq 0 (length (bodies_ sm))).

(** The body of the loop of [assumeFrame(frame_id, stamp)] for one link:
    the link with both poses set, and what was logged. *)
Definition assumeFrame_link (tf_ : TransformListener) (frame : string) (t : Time)
    (sl : SeeLink) : SeeLink * list LogMsg :=
  let log1 :=
    if waitForTransform tf_ frame (name sl) t then []
    else [ErrorWaitForTransform (name sl) frame] in
  let '(transf, log2) :=
    match lookupTransform tf_ frame (name sl) t with
    | Some transf => (transf, [])
    | None => (tf_identity, [ErrorLookupTransform (name sl) frame])
    end in
  let converted_tf := tf_mul transf (constTransf sl) in
  (mkSeeLink (name sl) (setPose converted_tf (body sl))
     (setPose converted_tf (unscaledBody sl)) (constTransf sl) (volume sl),
   log1 ++ log2).

(** [assumeFrame(frame_id, stamp)] *)
Definition assumeFrame (tf_ : TransformListener) (frame : string) (t : Time)
    (sm : SelfMask) : SelfMask * list LogMsg :=
  let placed := assumeFrame_link tf_ frame t <$> bodies_ sm in
  (computeBoundingSpheres
     (mkSelfMask (fst <$> placed) (bspheres_ sm) (bspheresRadius2_ sm)
        (sensor_pos_ sm) (min_sensor_dist_ sm)),
   concat (snd <$> placed)).

(** [assumeFrame(frame_id, stamp, sensor_pos, min_sensor_dist)] *)
Definition assumeFrame_pos (tf_ : TransformListener) (frame : string) (t : Time)
    (sensor_pos : Vec3) (min_sensor_dist : Q) (sm : SelfMask) : SelfMask * list LogMsg :=
  let '(sm1, log) := assumeFrame tf_ frame t sm in
  (mkSelfMask (bodies_ sm1) (bspheres_ sm1) (bspheresRadius2_ sm1)
     sensor_pos min_sensor_dist, log).

(** [assumeFrame(frame_id, stamp, sensor_frame, min_sensor_dist)] *)
Definition assumeFrame_frame (tf_ : TransformListener) (frame : string) (t : Time)
    (sensor_frame : string) (min_sensor_dist : Q) (sm : SelfMask)
  : SelfMask * list LogMsg :=
  let '(sm1, log) := assumeFrame tf_ frame t sm in
  let '(pos1, log1) :=
    if waitForTransform tf_ frame sensor_frame t then (sensor_pos_ sm1, [])
    else (vzero, [ErrorWaitForTransform sensor_frame frame]) in
  let '(pos2, log2) :=
    match lookupTransform tf_ frame sensor_frame t with
    | Some transf => (getOrigin transf, [])
    | None => (vzero, [ErrorLookupTransform sensor_frame frame])
    end in
  (mkSelfMask (bodies_ sm1) (bspheres_ sm1) (bspheresRadius2_ sm1)
     pos2 min_sensor_dist, log ++ log1 ++ log2).

(** ** Classification of one point *)

(** [tf::Vector3::length] *)
Definition vlength (a : Vec3) : Q := tfSqrt (vdot a a).

(** [for (j = 0 ; out == OUTSIDE && j < bs ; ++j) if (test(bodies_[j])) out = INSIDE;] *)
Fixpoint containsLoop (test : SeeLink -> bool) (bodies : list SeeLink) (out : Label)
  : Label :=
  match bodies with
  | [] => out
  | sl :: rest =>
      if Label_eqb out OUTSIDE
      then containsLoop test rest (if test sl then INSIDE else out)
      else out
  end.

(** The state of the shadow loop: [out], the vector [intersections]
    (declared before the loop, handed to every ray test) and the arguments
    the callback has been called with. *)
Record ShadowLoop := mkShadowLoop {
  sh_out : Label;
  sh_intersections : list Vec3;
  sh_calls : list Vec3
}.

(** [for (j = 0 ; out == OUTSIDE && j < bs ; ++j)
      if (bodies_[j].body->intersectsRay(pt_eigen, dir_eigen, &intersections, 1))
        if (dir.dot(sensor_pos_ - intersections[0]) >= 0.0)
          { if (callback) callback(intersections[0]); out = SHADOW; }]
    The empty case of [intersections[0]] is excluded by
    [intersectsRay_stored]. *)
Fixpoint shadowLoop (sensor_pos pt dir_eigen : Vec3) (dir : option Vec3)
    (callback : bool) (bodies : list SeeLink) (st : ShadowLoop) : ShadowLoop :=
  match bodies with
  | [] => st
  | sl :: rest =>
      if Label_eqb (sh_out st) OUTSIDE then
        let '(hit, intersections) :=
          intersectsRay (body sl) pt dir_eigen (sh_intersections st) 1 in
        let st' :=
          if hit then
            match intersections with
            | tmp :: _ =>
                if dot_nonneg dir (vsub sensor_pos tmp)
                then mkShadowLoop SHADOW intersections
                       (sh_calls st ++ (if callback then [tmp] else []))
                else mkShadowLoop (sh_out st) intersections (sh_calls st)
            | [] => mkShadowLoop (sh_out st) intersections (sh_calls st)
            end
          else mkShadowLoop (sh_out st) intersections (sh_calls st) in
        shadowLoop sensor_pos pt dir_eigen dir callback rest st'
      else st
  end.

(** The body of the loop of [maskAuxContainment] for one point; [bound] is
    the merged sphere computed before the loop. *)
Definition containmentLabel (sm : SelfMask) (bound : BoundingSphere) (pt : Vec3) : Label :=
  let radiusSquared := (radius bound * radius bound)%Q in
  let diff := vsub pt (center bound) in
  if Qltb (squaredNorm diff) radiusSquared
  then containsLoop (fun sl => containsPoint (body sl) pt) (bodies_ sm) OUTSIDE
  else OUTSIDE.

(** The body of the loop of [maskAuxIntersection] for one point: the label
    and the arguments of the callback, in call order. *)
Definition intersectionLabel (sm : SelfMask) (bound : BoundingSphere) (callback : bool)
    (pt : Vec3) : Label * list Vec3 :=
  let radiusSquared := (radius bound * radius bound)%Q in
  let diff := vsub (center bound) pt in
  let out :=
    if Qltb (squaredNorm diff) radiusSquared
    then containsLoop (fun sl => containsPoint (unscaledBody sl) pt) (bodies_ sm) OUTSIDE
    else OUTSIDE in
  if Label_eqb out OUTSIDE then
    let dir := vsub (sensor_pos_ sm) pt in
    let dir_eigen := vsub (sensor_pos_ sm) pt in
    let lng := vlength dir in
    if Qltb lng (min_sensor_dist_ sm) then (INSIDE, [])
    else
      let dir := vdiv dir lng in
      let st := shadowLoop (sensor_pos_ sm) pt dir_eigen dir callback (bodies_ sm)
                  (mkShadowLoop out [] []) in
      let out := sh_out st in
      let diff := vsub (center bound) pt in
      let out :=
        if Label_eqb out OUTSIDE && Qltb (squaredNorm diff) radiusSquared
        then containsLoop (fun sl => containsPoint (body sl) pt) (bodies_ sm) out
        else out in
      (out, sh_calls st)
  else (out, []).

(** [getMaskContainment(pt)] *)
Definition getMaskContainment (sm : SelfMask) (pt : Vec3) : Label :=
  containsLoop (fun sl => containsPoint (body sl) pt) (bodies_ sm) OUTSIDE.

(** [getMaskIntersection(pt, callback)] *)
Definition getMaskIntersection (sm : SelfMask) (callback : bool) (pt : Vec3)
  : Label * list Vec3 :=
  let out :=
    containsLoop (fun sl => containsPoint (unscaledBody sl) pt) (bodies_ sm) OUTSIDE in
  if Label_eqb out OUTSIDE then
    let dir := vsub (sensor_pos_ sm) pt in
    let dir_eigen := dir in
    let lng := vlength dir in
    if Qltb lng (min_sensor_dist_ sm) then (INSIDE, [])
    else
      let dir := vdiv dir lng in
      let st := shadowLoop (sensor_pos_ sm) pt dir_eigen dir callback (bodies_ sm)
                  (mkShadowLoop out [] []) in
      let out := sh_out st in
      (containsLoop (fun sl => containsPoint (body sl) pt) (bodies_ sm) out, sh_calls st)
  else (out, []).

(** ** Classification of a cloud *)

(** The mask and the callback trace of a batch. *)
Record Batch := mkBatch { b_mask : list Label; b_calls : list Vec3 }.

(** [maskAuxContainment]: [mask[i] = out] for every index of the cloud.
    (The callers resize [mask] to the cloud; a store past its end is
    dropped here.) *)
Definition maskAuxContainment (sm : SelfMask) (data_in : PointCloud) (mask : list Label)
  : list Label :=
  let bound := mergeBoundingSpheres (bspheres_ sm) in
  foldl (fun mask i =>
           match points data_in !! i with
           | Some pt => <[i := containmentLabel sm bound pt]> mask
           | None => mask
           end)
        mask (seq 0 (length (points data_in))).

(** [maskAuxIntersection] *)
Definition maskAuxIntersection (sm : SelfMask) (data_in : PointCloud) (mask : list Label)
    (callback : bool) : Batch :=
  let bound := mergeBoundingSpheres (bspheres_ sm) in
  foldl (fun st i =>
           match points data_in !! i with
           | Some pt =>
               let '(out, calls) := intersectionLabel sm bound callback pt in
               mkBatch (<[i := out]> (b_mask st)) (b_calls st ++ calls)
           | None => st
           end)
        (mkBatch mask []) (seq 0 (length (points data_in))).

(** The result of a public batch call: the object afterwards, the mask, the
    callback trace and the console output. *)
Record MaskResult := mkMaskResult {
  r_self : SelfMask;
  r_mask : list Label;
  r_calls : list Vec3;
  r_log : list LogMsg
}.

(** [std::fill(mask.begin(), mask.end(), (int)OUTSIDE)] *)
Definition fill_OUTSIDE (mask : list Label) : list Label :=
  replicate (length mask) OUTSIDE.

(** [mask.resize(n)]: new entries are value-initialised; which label that
    is does not matter, every entry is overwritten before [mask] is read. *)
Definition mask_resize (n : nat) (mask : list Label) : list Label :=
  resize n INSIDE mask.

(** [maskContainment] *)
Definition maskContainment (tf_ : TransformListener) (sm : SelfMask)
    (data_in : PointCloud) (mask : list Label) : MaskResult :=
  let mask := mask_resize (length (points data_in)) mask in
  match bodies_ sm with
  | [] => mkMaskResult sm (fill_OUTSIDE mask) [] []
  | _ =>
      let '(sm1, log) := assumeFrame tf_ (frame_id data_in) (stamp data_in) sm in
      mkMaskResult sm1 (maskAuxContainment sm1 data_in mask) [] log
  end.

(** [maskIntersection(data_in, sensor_frame, min_sensor_dist, mask, callback)] *)
Definition maskIntersection_frame (tf_ : TransformListener) (sm : SelfMask)
    (data_in : PointCloud) (sensor_frame : string) (min_sensor_dist : Q)
    (mask : list Label) (callback : bool) : MaskResult :=
  let mask := mask_resize (length (points data_in)) mask in
  match bodies_ sm with
  | [] => mkMaskResult sm (fill_OUTSIDE mask) [] []
  | _ =>
      let '(sm1, log) :=
        assumeFrame_frame tf_ (frame_id data_in) (stamp data_in)
          sensor_frame min_sensor_dist sm in
      if bool_decide (sensor_frame = "")
      then mkMaskResult sm1 (maskAuxContainment sm1 data_in mask) [] log
      else
        let b := maskAuxIntersection sm1 data_in mask callback in
        mkMaskResult sm1 (b_mask b) (b_calls b) log
  end.

(** [maskIntersection(data_in, sensor_pos, min_sensor_dist, mask, callback)] *)
Definition maskIntersection_pos (tf_ : TransformListener) (sm : SelfMask)
    (data_in : PointCloud) (sensor_pos : Vec3) (min_sensor_dist : Q)
    (mask : list Label) (callback : bool) : MaskResult :=
  let mask := mask_resize (length (points data_in)) mask in
  match bodies_ sm with
  | [] => mkMaskResult sm (fill_OUTSIDE mask) [] []
  | _ =>
      let '(sm1, log) :=
        assumeFrame_pos tf_ (frame_id data_in) (stamp data_in)
          sensor_pos min_sensor_dist sm in
      let b := maskAuxIntersection sm1 data_in mask callback in
      mkMaskResult sm1 (b_mask b) (b_calls b) log
  end.

(** ** Notions used in the statements *)

(** The first body in the search order that passes [test], if any. *)
Definition firstBody (test : SeeLink -> bool) (bodies : list SeeLink) : option SeeLink :=
  head (filter (fun sl => test sl = true) bodies).

(** A link placed with the transform [transf] of its frame. *)
Definition placed (transf : Transform) (sl : SeeLink) : SeeLink :=
  mkSeeLink (name sl)
    (setPose (tf_mul transf (constTransf sl)) (body sl))
    (setPose (tf_mul transf (constTransf sl)) (unscaledBody sl))
    (constTransf sl) (volume sl).

(** The robot model [configure] works from: the parameter
    [robot_description], parsed. *)
Definition robotModel (nh_ : NodeHandle) : option Model :=
  getParam nh_ "robot_description" ≫= initString.

(** What one entry of [links] contributes to [bodies_]: nothing when the
    link is unknown, has no collision geometry, or no shape or no body can
    be constructed for it. *)
Definition buildLink (urdfModel : Model) (li : LinkInfo) : option SeeLink :=
  link ← getLink urdfModel (li_name li);
  col ← collision link;
  geom ← geometry col;
  shape ← (constructShape geom).1;
  b ← createBodyFromShape shape;
  let scaled := setPadding (li_padding li) (setScale (li_scale li) b) in
  Some (mkSeeLink (li_name li) scaled b (urdfPose2TFTransform (origin col))
          (computeVolume scaled)).

(** The names among [links] that the model does not know, in input order. *)
Definition unknownLinks (urdfModel : Model) (links : list LinkInfo) : list string :=
  li_name <$> filter (fun li => getLink urdfModel (li_name li) = None) links.

(** The text streamed into [missing] for a list of names. *)
Definition missingText (acc : string) (names : list string) : string :=
  foldl (fun s n => s +:+ " " +:+ n) acc names.

(** The payloads of the missing-links warnings of a console log. *)
Definition missingWarnings (log : list LogMsg) : list string :=
  omap (fun m => match m with WarnMissingLinks s => Some s | _ => None end) log.

(** Ray tests that leave what the vector held in place and add their
    points behind it. *)
Definition raysAppend : Prop :=
  forall b o d ints n, exists found, (intersectsRay b o d ints n).2 = ints ++ found.

(** One bounding sphere slot and one squared radius slot per body: what
    [computeBoundingSpheres] needs for its stores to be in range. *)
Definition sized (sm : SelfMask) : Prop :=
  length (bspheres_ sm) = length (bodies_ sm) /\
  length (bspheresRadius2_ sm) = length (bodies_ sm).

(** A link the model knows but for which no body is built: no collision
    geometry, no shape, or no body for the shape. *)
Definition knownUnbuilt (urdfModel : Model) (li : LinkInfo) : bool :=
  match getLink urdfModel (li_name li), buildLink urdfModel li with
  | Some _, None => true
  | _, _ => false
  end.

(** The link names of the console messages about one known link that got no
    body. *)
Definition linkFailures (log : list LogMsg) : list string :=
  omap (fun m => match m with
                 | WarnNoCollisionGeometry n | ErrorConstructShape n | WarnCreateBody n =>
                     Some n
                 | _ => None
                 end) log.

End SelfMask.

(** * [std::sort] as libstdc++ has it

    The introsort of [bits/stl_algo.h] and the heap routines of
    [bits/stl_heap.h] behind it, on a vector held as a list; iterators are
    indices into the vector.  Up to [S_threshold] elements it is an
    insertion sort that leaves equivalent elements in place; beyond that the
    partition around the median of three swaps elements across the pivot.
    The loops called unguarded rely on a sentinel in the vector; a read or a
    step that would leave the vector ends the loop here. *)

Module Libstdcxx.
Section Sort.
Context {A : Type} (comp : A -> A -> bool).

(** [comp(i, j)] for two iterators of the vector. *)
Definition comp_at (v : list A) (i j : nat) : bool :=
  match v !! i, v !! j with
  | Some x, Some y => comp x y
  | _, _ => false
  end.

(** [std::iter_swap(i, j)] *)
Definition iter_swap (v : list A) (i j : nat) : list A :=
  match v !! i, v !! j with
  | Some x, Some y => <[j := x]> (<[i := y]> v)
  | _, _ => v
  end.

(** [__move_median_to_first(result, a, b, c, comp)] *)
Definition move_median_to_first (v : list A) (result a b c : nat) : list A :=
  if comp_at v a b then
    if comp_at v b c then iter_swap v result b
    else if comp_at v a c then iter_swap v result c
    else iter_swap v result a
  else if comp_at v a c then iter_swap v result a
  else if comp_at v b c then iter_swap v result c
  else iter_swap v result b.

(** [__unguarded_linear_insert(last, comp)], with [val] already moved out of
    [*last]:
    [while (comp(val, next)) { *last = *next; last = next; --next; }
     *last = val;] *)
Fixpoint unguarded_linear_insert (val : A) (v : list A) (last : nat) : list A :=
  match last with
  | 0 => <[0 := val]> v
  | S next =>
      match v !! next with
      | Some x =>
          if comp val x then unguarded_linear_insert val (<[last := x]> v) next
          else <[last := val]> v
      | None => <[last := val]> v
      end
  end.

(** [__insertion_sort(first, last, comp)]: an element ordered before
    [*first] is moved to the front ([std::move_backward]), any other is
    inserted without a guard. *)
Definition insertion_sort (v : list A) (first last : nat) : list A :=
  foldl (fun v i =>
           match v !! i with
           | Some val =>
               if comp_at v i first
               then take first v ++ val :: take (i - first) (drop first v) ++ drop (S i) v
               else unguarded_linear_insert val v i
           | None => v
           end)
        v (seq (S first) (last - S first)).

(** [__unguarded_insertion_sort(first, last, comp)] *)
Definition unguarded_insertion_sort (v : list A) (first last : nat) : list A :=
  foldl (fun v i =>
           match v !! i with
           | Some val => unguarded_linear_insert val v i
           | None => v
           end)
        v (seq first (last - first)).

(** [enum { _S_threshold = 16 };] *)
Definition S_threshold : nat := 16.

(** [__final_insertion_sort(first, last, comp)] *)
Definition final_insertion_sort (v : list A) (first last : nat) : list A :=
  if S_threshold <? last - first then
    unguarded_insertion_sort (insertion_sort v first (first + S_threshold))
      (first + S_threshold) last
  else insertion_sort v first last.

(** [while (comp(first, pivot)) ++first;] *)
Fixpoint scan_up (v : list A) (pivot first fuel : nat) : nat :=
  match fuel with
  | 0 => first
  | S fuel => if comp_at v first pivot then scan_up v pivot (S first) fuel else first
  end.

(** [while (comp(pivot, last)) --last;] *)
Fixpoint scan_down (v : list A) (pivot last : nat) : nat :=
  match last with
  | 0 => 0
  | S below => if comp_at v pivot last then scan_down v pivot below else last
  end.

(** [__unguarded_partition(first, last, pivot, comp)]: the vector afterwards
    and the iterator returned.  Every round moves [first] up, so the length
    of the vector is fuel enough. *)
Fixpoint unguarded_partition (v : list A) (first last pivot fuel : nat) : list A * nat :=
  match fuel with
  | 0 => (v, first)
  | S fuel =>
      let first := scan_up v pivot first (length v) in
      let last := scan_down v pivot (pred last) in
      if first <? last
      then unguarded_partition (iter_swap v first last) (S first) last pivot fuel
      else (v, first)
  end.

(** [__unguarded_partition_pivot(first, last, comp)] *)
Definition unguarded_partition_pivot (v : list A) (first last : nat) : list A * nat :=
  let mid := first + (last - first) / 2 in
  let v := move_median_to_first v first (first + 1) mid (last - 1) in
  unguarded_partition v (first + 1) last first (length v).

(** [__push_heap(first, holeIndex, topIndex, value, comp)]; the hole moves
    up by one level a round. *)
Fixpoint push_heap (v : list A) (first holeIndex topIndex : nat) (value : A) (fuel : nat)
  : list A :=
  let parent := (holeIndex - 1) / 2 in
  match fuel, v !! (first + parent) with
  | S fuel, Some p =>
      if (topIndex <? holeIndex) && comp p value
      then push_heap (<[first + holeIndex := p]> v) first parent topIndex value fuel
      else <[first + holeIndex := value]> v
  | _, _ => <[first + holeIndex := value]> v
  end.

(** The first loop of [__adjust_heap]: the hole moves down to the larger
    child while there are two children.  The vector, [holeIndex] and
    [secondChild] afterwards. *)
Fixpoint sift (v : list A) (first len holeIndex secondChild fuel : nat)
  : list A * nat * nat :=
  match fuel with
  | 0 => (v, holeIndex, secondChild)
  | S fuel =>
      if secondChild <? (len - 1) / 2 then
        let secondChild := 2 * (secondChild + 1) in
        let secondChild :=
          if comp_at v (first + secondChild) (first + (secondChild - 1))
          then secondChild - 1 else secondChild in
        let v := match v !! (first + secondChild) with
                 | Some x => <[first + holeIndex := x]> v
                 | None => v
                 end in
        sift v first len secondChild secondChild fuel
      else (v, holeIndex, secondChild)
  end.

(** [__adjust_heap(first, holeIndex, len, value, comp)].  ([(len - 2) / 2]
    is negative for an empty heap; hence the test [2 <= len] on naturals.) *)
Definition adjust_heap (v : list A) (first holeIndex len : nat) (value : A) : list A :=
  let topIndex := holeIndex in
  let '(v, holeIndex, secondChild) := sift v first len holeIndex holeIndex len in
  let '(v, holeIndex) :=
    if Nat.even len && (2 <=? len) && (secondChild =? (len - 2) / 2) then
      let secondChild := 2 * (secondChild + 1) in
      (match v !! (first + (secondChild - 1)) with
       | Some x => <[first + holeIndex := x]> v
       | None => v
       end, secondChild - 1)
    else (v, holeIndex) in
  push_heap v first holeIndex topIndex value (S holeIndex).

(** [__pop_heap(first, last, result, comp)] *)
Definition pop_heap (v : list A) (first last result : nat) : list A :=
  match v !! result, v !! first with
  | Some value, Some top => adjust_heap (<[result := top]> v) first 0 (last - first) value
  | _, _ => v
  end.

(** [__make_heap(first, last, comp)]: [parent] runs from [(len - 2) / 2]
    down to 0. *)
Definition make_heap (v : list A) (first last : nat) : list A :=
  if last - first <? 2 then v
  else
    let len := last - first in
    foldl (fun v parent =>
             match v !! (first + parent) with
             | Some value => adjust_heap v first parent len value
             | None => v
             end)
          v (reverse (seq 0 (S ((len - 2) / 2)))).

(** [__heap_select(first, middle, last, comp)] *)
Definition heap_select (v : list A) (first middle last : nat) : list A :=
  foldl (fun v i => if comp_at v i first then pop_heap v first middle i else v)
        (make_heap v first middle) (seq middle (last - middle)).

(** [__sort_heap(first, last, comp)]: [last] runs down to [first + 1]. *)
Definition sort_heap (v : list A) (first last : nat) : list A :=
  foldl (fun v last => pop_heap v first last last)
        v (reverse (seq (S first) (last - S first))).

(** [__partial_sort(first, middle, last, comp)] *)
Definition partial_sort (v : list A) (first middle last : nat) : list A :=
  sort_heap (heap_select v first middle last) first middle.

(** [__introsort_loop(first, last, depth_limit, comp)]: every round of the
    [while] loop takes one from [depth_limit], sorts the upper part by a
    call of its own and goes on with the lower part. *)
Fixpoint introsort_loop (v : list A) (first last depth_limit : nat) : list A :=
  if S_threshold <? last - first then
    match depth_limit with
    | 0 => partial_sort v first last last
    | S depth_limit =>
        let '(v, cut) := unguarded_partition_pivot v first last in
        introsort_loop (introsort_loop v cut last depth_limit) first cut depth_limit
    end
  else v.

(** [std::sort(v.begin(), v.end(), comp)]; [std::__lg] is the binary
    logarithm rounded down. *)
Definition sort (v : list A) : list A :=
  match v with
  | [] => v
  | _ => final_insertion_sort
           (introsort_loop v 0 (length v) (Nat.log2 (length v) * 2)) 0 (length v)
  end.

End Sort.
End Libstdcxx.

(** * A world of axis-parallel boxes

    An implementation of [Externals] to run the mask on: frames differ by
    translations, the only bodies are boxes ([createBodyFromShape] has
    nothing for the other shapes, meshes cannot be loaded), ray tests are
    those of [bodies::Box] in geometric_shapes, and [std::sort] is given
    with the world. *)

Module Boxes.

(** ** A sort within the contract of [std::sort] *)

Fixpoint insert_by {A} (skip : A -> A -> bool) (x : A) (l : list A) : list A :=
  match l with
  | [] => [x]
  | y :: l' => if skip x y then y :: insert_by skip x l' else x :: l
  end.

Definition insertion_sort {A} (skip : A -> A -> bool) (l : list A) : list A :=
  foldr (insert_by skip) [] l.

(** [x] passes the elements ordered before it: ties keep the input order,
    as they do in [Libstdcxx.sort] up to sixteen elements. *)
Definition sort_keeping_ties {A} (comp : A -> A -> bool) : list A -> list A :=
  insertion_sort (fun x y => comp y x).

(** ** Square roots, exact on the squares of rationals *)

Definition Qsqrt (q : Q) : Q :=
  let r := Qred q in
  Qmake (Z.sqrt (Qnum r)) (Z.to_pos (Z.sqrt (Zpos (Qden r)))).

(** ** Boxes *)

Inductive BoxShape :=
| Sphere (radius : Q)
| Box (x y z : Q)
| Cylinder (radius length : Q).

Record BoxBody := mkBoxBody {
  size : Vec3;
  scale_ : Q;
  padding_ : Q;
  center_ : Vec3
}.

(** Half of the scaled extent plus the padding, on each axis. *)
Definition halfExtent (b : BoxBody) : Vec3 :=
  mkVec3 (scale_ b * vx (size b) / 2 + padding_ b)
         (scale_ b * vy (size b) / 2 + padding_ b)
         (scale_ b * vz (size b) / 2 + padding_ b).

Definition Qabs_le (x h : Q) : bool := Qle_bool (- h) x && Qle_bool x h.

Definition boxContains (b : BoxBody) (p : Vec3) : bool :=
  let v := vsub p (center_ b) in
  let h := halfExtent b in
  Qabs_le (vx v) (vx h) && Qabs_le (vy v) (vy h) && Qabs_le (vz v) (vz h).

Definition boxVolume (b : BoxBody) : Q :=
  let h := halfExtent b in (8 * vx h * vy h * vz h)%Q.

Definition boxBoundingSphere (b : BoxBody) : BoundingSphere :=
  let h := halfExtent b in mkBoundingSphere (center_ b) (Qsqrt (vdot h h)).

(** [static const double ZERO = 1e-9;] *)
Definition ZERO : Q := 1 # 1000000000.

(** [distanceSQR(p, origin, dir)], the squared distance of [p] to the line
    through [origin] along [dir]; not a number for a direction of length
    zero. *)
Definition distanceSQR (p o d : Vec3) : option Q :=
  let a := vsub p o in
  if Qeq_bool (vdot d d) 0 then None
  else Some (squaredNorm a - vdot d a * vdot d a / vdot d d)%Q.

Inductive Axis := axisL | axisW | axisH.

Definition coord (i : Axis) (v : Vec3) : Q :=
  match i with axisL => vx v | axisW => vy v | axisH => vz v end.

(** [std::min(c1, c2) > o || std::max(c1, c2) < o] *)
Definition beside (c1 c2 o : Q) : bool :=
  Qltb o (if Qltb c2 c1 then c2 else c1) || Qltb (if Qltb c1 c2 then c2 else c1) o.

(** One round of the loop of [Box::intersectsRay] over the three normals,
    here the coordinate axes: [t_near] and [t_far] afterwards, [None] for
    [return false].  A parameter that is still infinite is [None]. *)
Definition rayRound (corner1 corner2 o d : Vec3) (i : Axis) (t : option Q * option Q)
  : option (option Q * option Q) :=
  let dp := coord i d in
  if Qltb ZERO dp || Qltb dp (- ZERO) then
    let t1 := ((coord i corner1 - coord i o) / dp)%Q in
    let t2 := ((coord i corner2 - coord i o) / dp)%Q in
    let '(t1, t2) := if Qltb t2 t1 then (t2, t1) else (t1, t2) in
    let t_near := match t.1 with Some n => if Qltb n t1 then t1 else n | None => t1 end in
    let t_far := match t.2 with Some f => if Qltb t2 f then t2 else f | None => t2 end in
    if Qltb t_far t_near then None
    else if Qltb t_far 0 then None
    else Some (Some t_near, Some t_far)
  else
    let '(j, k) :=
      match i with
      | axisL => (axisW, axisH) | axisW => (axisL, axisH) | axisH => (axisL, axisW)
      end in
    if beside (coord j corner1) (coord j corner2) (coord j o)
       && beside (coord k corner1) (coord k corner2) (coord k o)
    then None else Some t.

Definition along (o d : Vec3) (t : Q) : Vec3 :=
  mkVec3 (Qred (vx o + t * vx d)) (Qred (vy o + t * vy d)) (Qred (vz o + t * vz d)).

(** [Box::intersectsRay] up to the stores: the parameters [t_near] and
    [t_far] of a ray that is not rejected.  A direction without any
    component beyond [ZERO] leaves both infinite and makes the library store a
    vector that is not finite; such a ray meets nothing here. *)
Definition boxRay (b : BoxBody) (o d : Vec3) : option (Q * Q) :=
  let h := halfExtent b in
  let corner1 := vsub (center_ b) h in
  let corner2 := mkVec3 (vx (center_ b) + vx h) (vy (center_ b) + vy h) (vz (center_ b) + vz h) in
  if match distanceSQR (center_ b) o d with Some q => Qltb (vdot h h) q | None => false end
  then None
  else
    t ← rayRound corner1 corner2 o d axisL (None, None);
    t ← rayRound corner1 corner2 o d axisW t;
    t ← rayRound corner1 corner2 o d axisH t;
    match t with
    | (Some t_near, Some t_far) => Some (t_near, t_far)
    | _ => None
    end.

(** The points [Box::intersectsRay] stores for [t_near] and [t_far]: the
    point at [t_near], also when that lies behind the origin of the ray,
    followed by the one at [t_far] when more than one is asked for; the
    point at [t_far] alone when the two coincide. *)
Definition boxRayPoints (o d : Vec3) (t : Q * Q) (count : nat) : list Vec3 :=
  if Qltb ZERO (t.2 - t.1) then
    along o d t.1 :: (if 1 <? count then [along o d t.2] else [])
  else [along o d t.2].

(** [Box::intersectsRay(origin, dir, &intersections, count)] *)
Definition boxIntersectsRay (b : BoxBody) (o d : Vec3) (intersections : list Vec3)
    (count : nat) : bool * list Vec3 :=
  match boxRay b o d with
  | Some t => (true, intersections ++ boxRayPoints o d t count)
  | None => (false, intersections)
  end.

Definition vadd (a b : Vec3) : Vec3 :=
  mkVec3 (Qred (vx a + vx b)) (Qred (vy a + vy b)) (Qred (vz a + vz b)).

(** Grow [merged] to enclose [s]. *)
Definition mergeStep (merged s : BoundingSphere) : BoundingSphere :=
  if Qle_bool (radius s) 0 then merged
  else
    let d := Qsqrt (squaredNorm (vsub (center s) (center merged))) in
    if Qle_bool (d + radius merged) (radius s) then s
    else if Qltb (radius merged) (d + radius s) then
      let r := Qred ((d + radius s + radius merged) / 2) in
      let k := ((r - radius s) / d)%Q in
      let delta := vsub (center merged) (center s) in
      mkBoundingSphere
        (mkVec3 (Qred (vx (center s) + k * vx delta))
                (Qred (vy (center s) + k * vy delta))
                (Qred (vz (center s) + k * vz delta))) r
    else merged.

Definition boxMergeBoundingSpheres (spheres : list BoundingSphere) : BoundingSphere :=
  match spheres with
  | [] => mkBoundingSphere vzero 0
  | s :: rest => foldl mergeStep s rest
  end.

Definition lookupLink (model : list (string * Link)) (n : string) : option Link :=
  snd <$> head (filter (fun e => e.1 = n) model).

(** The world, given the parser of robot descriptions and [std::sort]. *)
Definition world (parse : string -> option (list (string * Link)))
    (sort : forall A : Type, (A -> A -> bool) -> list A -> list A) : Externals := {|
  Transform := Vec3;
  tf_Transform := fun _ v => v;
  tf_identity := vzero;
  tf_mul := vadd;
  getOrigin := fun t => t;
  tfSqrt := Qsqrt;
  Model := list (string * Link);
  initString := parse;
  getLink := lookupLink;
  Shape := BoxShape;
  shapes_Sphere := Sphere;
  shapes_Box := Box;
  shapes_Cylinder := Cylinder;
  createMeshFromResource := fun _ _ => None;
  Body := BoxBody;
  createBodyFromShape := fun s =>
    match s with
    | Box x y z => Some (mkBoxBody (mkVec3 x y z) 1 0 vzero)
    | _ => None
    end;
  setScale := fun s b => mkBoxBody (size b) s (padding_ b) (center_ b);
  setPadding := fun p b => mkBoxBody (size b) (scale_ b) p (center_ b);
  setPose := fun t b => mkBoxBody (size b) (scale_ b) (padding_ b) t;
  computeVolume := boxVolume;
  computeBoundingSphere := boxBoundingSphere;
  containsPoint := boxContains;
  intersectsRay := boxIntersectsRay;
  mergeBoundingSpheres := boxMergeBoundingSpheres;
  std_sort := sort
|}.

End Boxes.

(** ** A robot in the world of boxes *)

(** A robot of four boxes, a cylinder and a link without collision
    geometry; the collision box of the hand sits 3 above the frame of its
    link, every other collision origin is the link frame. *)
Definition boxLink (x y z : Q) : Link :=
  mkLink (Some (mkCollision (Some (urdf_Box (mkVec3 x y z)))
                  (mkPose vzero (mkQuaternion 0 0 0 1)))).

Definition robot : list (string * Link) :=
  [("torso", boxLink 8 8 4); ("head", boxLink 4 4 2); ("arm", boxLink 2 4 4);
   ("wheel", mkLink (Some (mkCollision (Some (urdf_Cylinder 1 1))
                             (mkPose vzero (mkQuaternion 0 0 0 1)))));
   ("frame", mkLink None);
   ("hand", mkLink (Some (mkCollision (Some (urdf_Box (mkVec3 2 2 2)))
                            (mkPose (mkVec3 0 0 3) (mkQuaternion 0 0 0 1)))))].

(** A robot of seventeen segments with the same collision box. *)
Definition segments : list string :=
  ["a"; "b"; "c"; "d"; "e"; "f"; "g"; "h"; "i"; "j"; "k"; "l"; "m"; "n"; "o"; "p"; "q"].

Definition snake : list (string * Link) := (fun n => (n, boxLink 4 4 2)) <$> segments.

Definition parse (content : string) : option (list (string * Link)) :=
  if bool_decide (content = "<robot/>") then Some robot
  else if bool_decide (content = "<snake/>") then Some snake
  else None.

Definition nh_robot : NodeHandle :=
  mkNodeHandle (fun key =>
    if bool_decide (key = "robot_description") then Some "<robot/>" else None).

Definition nh_snake : NodeHandle :=
  mkNodeHandle (fun key =>
    if bool_decide (key = "robot_description") then Some "<snake/>" else None).

Definition nh_empty : NodeHandle := mkNodeHandle (fun _ => None).

(** The world the runs below take place in, and the same world with the
    [std::sort] of libstdc++. *)
Definition boxWorld : Externals := Boxes.world parse (@Boxes.sort_keeping_ties).
Definition boxWorld_libstdcxx : Externals := Boxes.world parse (@Libstdcxx.sort).

#[local] Existing Instance boxWorld.

(** A freshly constructed mask. *)
Definition fresh : @SelfMask boxWorld := @mkSelfMask boxWorld [] [] [] vzero 0.
Definition fresh_libstdcxx : @SelfMask boxWorld_libstdcxx :=
  @mkSelfMask boxWorld_libstdcxx [] [] [] vzero 0.

(** A listener for which every frame coincides with the cloud frame. *)
Definition tf_still : @TransformListener boxWorld :=
  @mkTransformListener boxWorld (fun _ _ _ => true) (fun _ _ _ => Some vzero).

(** A listener that places the torso at x = 20, the arm at the origin, and
    knows no other frame. *)
Definition tf_apart : @TransformListener boxWorld :=
  @mkTransformListener boxWorld
    (fun _ source _ => bool_decide (source = "torso") || bool_decide (source = "arm"))
    (fun _ source _ =>
       if bool_decide (source = "torso") then Some (mkVec3 20 0 0)
       else if bool_decide (source = "arm") then Some vzero
       else None).

(** A listener that places the torso at x = 20 and the arm at y = 5; for
    every other frame the wait times out and the lookup throws. *)
Definition tf_partial : @TransformListener boxWorld :=
  @mkTransformListener boxWorld
    (fun _ source _ => bool_decide (source = "torso") || bool_decide (source = "arm"))
    (fun _ source _ =>
       if bool_decide (source = "torso") then Some (mkVec3 20 0 0)
       else if bool_decide (source = "arm") then Some (mkVec3 0 5 0)
       else None).

(** A listener whose wait always times out although the transform of every
    frame, a shift by one along x, can be looked up afterwards. *)
Definition tf_late : @TransformListener boxWorld :=
  @mkTransformListener boxWorld (fun _ _ _ => false) (fun _ _ _ => Some (mkVec3 1 0 0)).

(** The mask configured for the head alone, at scale 1 without padding, and
    the same placed in the frame of the cloud with a sensor far behind the
    corner (-2,-2,-1) of the head. *)
Definition head_only : SelfMask := (configure nh_robot [mkLinkInfo "head" 0 1] fresh).1.2.

Definition sensor_behind : Vec3 := mkVec3 (-10) (-10) (-5).

Definition head_posed : SelfMask :=
  (assumeFrame_pos tf_still "base" 0%Z sensor_behind (1 # 10) head_only).1.

(** The head is the box [-2,2] x [-2,2] x [-1,1]; its bounding sphere has
    radius 3 and passes through its corners. *)
Definition corner : Vec3 := mkVec3 2 2 1.

Definition head_cloud : PointCloud :=
  mkPointCloud "base" 0%Z [corner; vzero; mkVec3 (-199 # 20) (-10) (-5); mkVec3 5 0 0].

Definition mask4 : list Label := mask_resize 4 [].

(** The head as [configure] builds it. *)
Definition head_link : SeeLink :=
  @mkSeeLink boxWorld "head"
    (Boxes.mkBoxBody (mkVec3 4 4 2) 1 0 vzero)
    (Boxes.mkBoxBody (mkVec3 4 4 2) 1 0 vzero) vzero (256 # 8).

Definition head_then_arm : list LinkInfo := [mkLinkInfo "head" 0 1; mkLinkInfo "arm" 0 1].

(** The seventeen segments of the snake, in the order of the model. *)
Definition snake_links : list LinkInfo := (fun n => mkLinkInfo n 0 1) <$> segments.

(** The mask configured for the torso, the hand and the arm, with every
    link shifted by one along x by an earlier frame update. *)
Definition three_links : SelfMask :=
  (assumeFrame tf_late "base" 0%Z
     (configure nh_robot
        [mkLinkInfo "torso" 0 1; mkLinkInfo "hand" 0 1; mkLinkInfo "arm" 0 1] fresh).1.2).1.

(** The hand as that update leaves it. *)
Definition hand_link : SeeLink :=
  @mkSeeLink boxWorld "hand"
    (Boxes.mkBoxBody (mkVec3 2 2 2) 1 0 (mkVec3 1 0 3))
    (Boxes.mkBoxBody (mkVec3 2 2 2) 1 0 (mkVec3 1 0 3)) (mkVec3 0 0 3) (64 # 8).

(** Entries that build (arm, torso), a body that cannot be created (wheel),
    a link without collision geometry (frame) and two unknown names. *)
Definition mixed_links : list LinkInfo :=
  [mkLinkInfo "arm" 0 1; mkLinkInfo "gripper" 0 1; mkLinkInfo "torso" 0 1;
   mkLinkInfo "wheel" 0 1; mkLinkInfo "frame" 0 1; mkLinkInfo "antenna" 0 1].

(** The mask configured for the arm and the torso, placed by [tf_apart] with
    the sensor at x = 10 between them, and a point at x = -5: on the ray
    from the point to the sensor first comes the arm (x from -1 to 1), then
    the sensor, then the torso (x from 16 to 24). *)
Definition arm_and_torso : SelfMask :=
  (configure nh_robot [mkLinkInfo "arm" 0 1; mkLinkInfo "torso" 0 1] fresh).1.2.

Definition arm_only : SelfMask := (configure nh_robot [mkLinkInfo "arm" 0 1] fresh).1.2.

Definition sensor_between : Vec3 := mkVec3 10 0 0.

Definition far_point : Vec3 := mkVec3 (-5) 0 0.

Definition far_cloud : PointCloud := mkPointCloud "base" 0%Z [far_point].

(** The arm and the torso as [tf_apart] places them, and the arm alone. *)
Definition arm_link : SeeLink :=
  @mkSeeLink boxWorld "arm"
    (Boxes.mkBoxBody (mkVec3 2 4 4) 1 0 vzero)
    (Boxes.mkBoxBody (mkVec3 2 4 4) 1 0 vzero) vzero (256 # 8).

Definition torso_link : SeeLink :=
  @mkSeeLink boxWorld "torso"
    (Boxes.mkBoxBody (mkVec3 8 8 4) 1 0 (mkVec3 20 0 0))
    (Boxes.mkBoxBody (mkVec3 8 8 4) 1 0 (mkVec3 20 0 0)) vzero (2048 # 8).

Definition apart_posed : SelfMask :=
  (assumeFrame_pos tf_apart "base" 0%Z sensor_between (1 # 10) arm_and_torso).1.

Definition arm_posed : SelfMask :=
  (assumeFrame_pos tf_apart "base" 0%Z sensor_between (1 # 10) arm_only).1.

(** A mask without bodies that has been given a sensor. *)
Definition bodiless_posed : SelfMask :=
  (assumeFrame_pos tf_still "base" 0%Z sensor_behind (1 # 10)
     (configure nh_robot [] fresh).1.2).1.

(** A point between the sensor and the head: the ray towards the sensor
    leads away from the head. *)
Definition near_sensor_side : Vec3 := mkVec3 (-6) (-6) (-3).

(** * Properties of the mask *)

Lemma Qltb_lt (x y : Q) : Qltb x y = true <-> (x < y)%Q.
Proof.
  unfold Qltb. rewrite negb_true_iff. split.
  - intros H. apply Qnot_le_lt. intros Hle.
    apply Qle_bool_iff in Hle. congruence.
  - intros H. destruct (Qle_bool y x) eqn:E; [|done].
    apply Qle_bool_iff in E. exfalso. by apply (Qlt_not_le x y).
Qed.

Lemma Qltb_ge (x y : Q) : Qltb x y = false <-> (y <= x)%Q.
Proof.
  unfold Qltb. rewrite negb_false_iff. apply Qle_bool_iff.
Qed.

Lemma Label_eqb_eq (a b : Label) : Label_eqb a b = true <-> a = b.
Proof. destruct a, b; simpl; split; congruence. Qed.

Section Properties.
Context `{E : Externals}.

(** ** The loops over the bodies *)

Lemma containsLoop_not_OUTSIDE test bodies out :
  out <> OUTSIDE -> containsLoop test bodies out = out.
Proof.
  intros Hout. destruct bodies as [|sl rest]; [done|]. simpl.
  destruct out; done.
Qed.

Lemma containsLoop_INSIDE test bodies :
  containsLoop test bodies OUTSIDE = INSIDE <-> exists sl, sl ∈ bodies /\ test sl = true.
Proof.
  induction bodies as [|sl rest IH]; simpl.
  - split; [done|]. intros (sl & Hin & _). by apply elem_of_nil in Hin.
  - destruct (test sl) eqn:Ht.
    + rewrite containsLoop_not_OUTSIDE by done. split; [|done].
      intros _. exists sl. split; [left|done].
    + rewrite IH. split.
      * intros (sl' & Hin & Ht'). exists sl'. split; [by right|done].
      * intros (sl' & Hin & Ht'). apply elem_of_cons in Hin as [->|Hin]; [congruence|].
        by exists sl'.
Qed.

Lemma containsLoop_OUTSIDE test bodies :
  containsLoop test bodies OUTSIDE = OUTSIDE <-> forall sl, sl ∈ bodies -> test sl = false.
Proof.
  induction bodies as [|sl rest IH]; simpl.
  - split; [|done]. intros _ sl Hin. by apply elem_of_nil in Hin.
  - destruct (test sl) eqn:Ht.
    + rewrite containsLoop_not_OUTSIDE by done. split; [done|].
      intros H. specialize (H sl). rewrite Ht in H. discriminate H. left.
    + rewrite IH. split.
      * intros H sl' Hin. apply elem_of_cons in Hin as [->|Hin]; [done|]. by apply H.
      * intros H sl' Hin. apply H. by right.
Qed.

Lemma containsLoop_cases test bodies :
  containsLoop test bodies OUTSIDE = INSIDE \/ containsLoop test bodies OUTSIDE = OUTSIDE.
Proof.
  induction bodies as [|sl rest IH]; simpl; [by right|].
  destruct (test sl); [|done]. rewrite containsLoop_not_OUTSIDE by done. by left.
Qed.

Lemma guarded_containsLoop test bodies out (guard : bool) :
  guard = true \/ containsLoop test bodies OUTSIDE = OUTSIDE ->
  (if Label_eqb out OUTSIDE && guard then containsLoop test bodies out else out)
  = containsLoop test bodies out.
Proof.
  intros Hg. destruct out; simpl; try by rewrite containsLoop_not_OUTSIDE.
  destruct guard; [done|]. destruct Hg as [?|Hg]; [done|]. by rewrite Hg.
Qed.

Lemma containsLoop_firstBody test bodies :
  containsLoop test bodies OUTSIDE = INSIDE <-> is_Some (firstBody test bodies).
Proof.
  rewrite containsLoop_INSIDE. unfold firstBody. split.
  - intros (sl & Hin & Ht).
    destruct (filter (fun sl => test sl = true) bodies) as [|x l] eqn:Hf; [|by eexists].
    assert (sl ∈ filter (fun sl => test sl = true) bodies) as Hin'
      by (apply list_elem_of_filter; done).
    rewrite Hf in Hin'. by apply elem_of_nil in Hin'.
  - intros [sl Hsl]. exists sl. apply head_Some_elem_of in Hsl.
    by apply list_elem_of_filter in Hsl as [? ?].
Qed.

(** ** The shadow loop *)

Lemma shadowLoop_stops sensor_pos pt dir_eigen dir callback bodies st :
  sh_out st <> OUTSIDE ->
  shadowLoop sensor_pos pt dir_eigen dir callback bodies st = st.
Proof.
  intros Hout. destruct bodies as [|sl rest]; [done|]. simpl.
  by destruct (sh_out st).
Qed.

(** One iteration whose ray test reports a hit: the point read is the one
    at index 0 of the vector after the call. *)
Lemma shadowLoop_hit (laws : ExternalsLaws E) sensor_pos pt dir_eigen dir callback
    sl rest st intersections :
  sh_out st = OUTSIDE ->
  intersectsRay (body sl) pt dir_eigen (sh_intersections st) 1 = (true, intersections) ->
  exists tmp others,
    intersections = tmp :: others /\
    shadowLoop sensor_pos pt dir_eigen dir callback (sl :: rest) st
    = if dot_nonneg dir (vsub sensor_pos tmp)
      then mkShadowLoop SHADOW intersections
             (sh_calls st ++ (if callback then [tmp] else []))
      else shadowLoop sensor_pos pt dir_eigen dir callback rest
             (mkShadowLoop OUTSIDE intersections (sh_calls st)).
Proof.
  intros Hout Hray.
  pose proof (intersectsRay_stored E laws (body sl) pt dir_eigen (sh_intersections st) 1)
    as Hstored.
  simpl. rewrite Hout, Hray in *. simpl in *.
  destruct intersections as [|tmp others]; [by destruct Hstored|].
  exists tmp, others. split; [done|].
  destruct (dot_nonneg dir (vsub sensor_pos tmp)); [|done].
  by apply shadowLoop_stops.
Qed.

(** When ray tests append, a point at index 0 that failed the direction test
    stays there: no later body changes the label or calls the callback. *)
Lemma shadowLoop_stale sensor_pos pt dir_eigen dir callback bodies st tmp others :
  raysAppend ->
  sh_intersections st = tmp :: others ->
  dot_nonneg dir (vsub sensor_pos tmp) = false ->
  sh_out (shadowLoop sensor_pos pt dir_eigen dir callback bodies st) = sh_out st /\
  sh_calls (shadowLoop sensor_pos pt dir_eigen dir callback bodies st) = sh_calls st.
Proof.
  intros Happend. revert st others.
  induction bodies as [|sl rest IH]; intros st others Hints Hdot; [done|]. simpl.
  destruct (Label_eqb (sh_out st) OUTSIDE); [|done].
  destruct (Happend (body sl) pt dir_eigen (sh_intersections st) 1) as [found Hfound].
  destruct (intersectsRay (body sl) pt dir_eigen (sh_intersections st) 1)
    as [hit intersections].
  simpl in Hfound. rewrite Hints in Hfound. simpl in Hfound. subst intersections.
  destruct hit; rewrite ?Hdot;
    by destruct (IH (mkShadowLoop (sh_out st) (tmp :: others ++ found) (sh_calls st))
                   (others ++ found) eq_refl Hdot).
Qed.

(** ** The loops over the points *)

Lemma maskAuxContainment_prefix sm data_in mask n :
  length mask = length (points data_in) -> n <= length (points data_in) ->
  foldl (fun mask i =>
           match points data_in !! i with
           | Some pt =>
               <[i := containmentLabel sm (mergeBoundingSpheres (bspheres_ sm)) pt]> mask
           | None => mask
           end) mask (seq 0 n)
  = (containmentLabel sm (mergeBoundingSpheres (bspheres_ sm)) <$> take n (points data_in))
      ++ drop n mask.
Proof.
  intros Hlen. induction n as [|n IH]; intros Hn; [done|].
  rewrite seq_S, foldl_snoc, IH by lia. simpl.
  destruct (lookup_lt_is_Some_2 (points data_in) n) as [pt Hpt]; [lia|]. rewrite Hpt.
  destruct (lookup_lt_is_Some_2 mask n) as [m Hm]; [lia|].
  rewrite insert_app_r_alt by (rewrite length_fmap, length_take; lia).
  rewrite length_fmap, length_take, Nat.min_l by lia.
  rewrite Nat.sub_diag, (drop_S _ _ _ Hm), (take_S_r _ _ _ Hpt), fmap_app. simpl.
  by rewrite <- app_assoc.
Qed.

(** With a mask of the size of the cloud (every caller resizes it),
    [maskAuxContainment] stores the label of each point at its index. *)
Lemma maskAuxContainment_fmap sm data_in mask :
  length mask = length (points data_in) ->
  maskAuxContainment sm data_in mask
  = containmentLabel sm (mergeBoundingSpheres (bspheres_ sm)) <$> points data_in.
Proof.
  intros Hlen. unfold maskAuxContainment.
  rewrite maskAuxContainment_prefix by done.
  rewrite firstn_all, drop_ge by lia. apply app_nil_r.
Qed.

Lemma maskAuxIntersection_prefix sm data_in mask callback n :
  length mask = length (points data_in) -> n <= length (points data_in) ->
  foldl (fun st i =>
           match points data_in !! i with
           | Some pt =>
               let '(out, calls) :=
                 intersectionLabel sm (mergeBoundingSpheres (bspheres_ sm)) callback pt in
               mkBatch (<[i := out]> (b_mask st)) (b_calls st ++ calls)
           | None => st
           end) (mkBatch mask []) (seq 0 n)
  = let labelled :=
      intersectionLabel sm (mergeBoundingSpheres (bspheres_ sm)) callback
        <$> take n (points data_in) in
    mkBatch ((fst <$> labelled) ++ drop n mask) (concat (snd <$> labelled)).
Proof.
  intros Hlen. induction n as [|n IH]; intros Hn; [done|].
  rewrite seq_S, foldl_snoc, IH by lia. simpl.
  destruct (lookup_lt_is_Some_2 (points data_in) n) as [pt Hpt]; [lia|]. rewrite Hpt.
  destruct (lookup_lt_is_Some_2 mask n) as [m Hm]; [lia|].
  destruct (intersectionLabel _ _ _ pt) as [out calls] eqn:Hl. simpl.
  rewrite insert_app_r_alt by (rewrite !length_fmap, length_take; lia).
  rewrite !length_fmap, length_take, Nat.min_l by lia.
  rewrite Nat.sub_diag, (drop_S _ _ _ Hm), (take_S_r _ _ _ Hpt), !fmap_app. simpl.
  rewrite Hl. simpl. rewrite <- app_assoc, concat_app. simpl. by rewrite app_nil_r.
Qed.

Lemma maskAuxIntersection_fmap sm data_in mask callback :
  length mask = length (points data_in) ->
  maskAuxIntersection sm data_in mask callback
  = let labelled :=
      intersectionLabel sm (mergeBoundingSpheres (bspheres_ sm)) callback
        <$> points data_in in
    mkBatch (fst <$> labelled) (concat (snd <$> labelled)).
Proof.
  intros Hlen. unfold maskAuxIntersection.
  rewrite maskAuxIntersection_prefix by done. simpl.
  rewrite firstn_all, drop_ge by lia. by rewrite app_nil_r.
Qed.

Lemma maskAuxIntersection_lookup sm data_in mask callback i pt :
  length mask = length (points data_in) -> points data_in !! i = Some pt ->
  b_mask (maskAuxIntersection sm data_in mask callback) !! i
  = Some (intersectionLabel sm (mergeBoundingSpheres (bspheres_ sm)) callback pt).1.
Proof.
  intros Hlen Hpt. rewrite maskAuxIntersection_fmap by done. simpl.
  by rewrite !list_lookup_fmap, Hpt.
Qed.

Lemma maskAuxContainment_lookup sm data_in mask i pt :
  length mask = length (points data_in) -> points data_in !! i = Some pt ->
  maskAuxContainment sm data_in mask !! i
  = Some (containmentLabel sm (mergeBoundingSpheres (bspheres_ sm)) pt).
Proof.
  intros Hlen Hpt. rewrite maskAuxContainment_fmap by done.
  by rewrite list_lookup_fmap, Hpt.
Qed.

(** ** Precedence of the labelling rules *)

Lemma squaredNorm_vsub_sym a b : (squaredNorm (vsub a b) == squaredNorm (vsub b a))%Q.
Proof. unfold squaredNorm, vdot, vsub. simpl. ring. Qed.

Lemma Qltb_squaredNorm_sym a b r :
  Qltb (squaredNorm (vsub a b)) r = Qltb (squaredNorm (vsub b a)) r.
Proof. unfold Qltb. by rewrite (Qleb_comp _ _ (Qeq_refl r) _ _ (squaredNorm_vsub_sym a b)). Qed.

(** X22.  A point contained in some unscaled body is labelled INSIDE,
    without any call of the callback, by [getMaskIntersection] always and by
    [maskAuxIntersection] when it passes the guard
    [diff.squaredNorm() < radiusSquared] of the merged bounding sphere: the
    batch loop tests the unscaled bodies only behind that guard. *)
Theorem unscaled_containment_is_INSIDE sm data_in mask callback i pt :
  length mask = length (points data_in) ->
  points data_in !! i = Some pt ->
  (exists sl, sl ∈ bodies_ sm /\ containsPoint (unscaledBody sl) pt = true) ->
  getMaskIntersection sm callback pt = (INSIDE, []) /\
  (let bound := mergeBoundingSpheres (bspheres_ sm) in
   (squaredNorm (vsub (center bound) pt) < radius bound * radius bound)%Q ->
   intersectionLabel sm bound callback pt = (INSIDE, []) /\
   b_mask (maskAuxIntersection sm data_in mask callback) !! i = Some INSIDE).
Proof.
  intros Hlen Hpt Hin.
  apply (containsLoop_INSIDE (fun sl => containsPoint (unscaledBody sl) pt)) in Hin.
  split.
  - unfold getMaskIntersection. by rewrite Hin.
  - intros bound Hd. apply Qltb_lt in Hd.
    assert (intersectionLabel sm bound callback pt = (INSIDE, [])) as Hl.
    { unfold intersectionLabel. by rewrite Hd, Hin. }
    split; [done|].
    rewrite (maskAuxIntersection_lookup _ _ _ _ _ _ Hlen Hpt). fold bound. by rewrite Hl.
Qed.

(** C4.  A point in no unscaled body and closer to the sensor than
    [min_sensor_dist_] is labelled INSIDE by [getMaskIntersection] and by
    [maskAuxIntersection], whatever the bodies are, before any ray test and
    without any call of the callback. *)
Theorem standoff_is_INSIDE sm data_in mask callback i pt :
  length mask = length (points data_in) ->
  points data_in !! i = Some pt ->
  (forall sl, sl ∈ bodies_ sm -> containsPoint (unscaledBody sl) pt = false) ->
  (vlength (vsub (sensor_pos_ sm) pt) < min_sensor_dist_ sm)%Q ->
  getMaskIntersection sm callback pt = (INSIDE, []) /\
  intersectionLabel sm (mergeBoundingSpheres (bspheres_ sm)) callback pt = (INSIDE, []) /\
  b_mask (maskAuxIntersection sm data_in mask callback) !! i = Some INSIDE.
Proof.
  intros Hlen Hpt Hout Hd.
  apply (containsLoop_OUTSIDE (fun sl => containsPoint (unscaledBody sl) pt)) in Hout.
  apply Qltb_lt in Hd.
  assert (intersectionLabel sm (mergeBoundingSpheres (bspheres_ sm)) callback pt
          = (INSIDE, [])) as Hl.
  { unfold intersectionLabel. rewrite Hout.
    destruct (Qltb (squaredNorm _) _); simpl; by rewrite Hd. }
  split; [|split; [done|]].
  - unfold getMaskIntersection. rewrite Hout. simpl. by rewrite Hd.
  - rewrite (maskAuxIntersection_lookup _ _ _ _ _ _ Hlen Hpt). by rewrite Hl.
Qed.

(** X23.  In [maskAuxContainment] a point that fails the guard
    [diff.squaredNorm() < radiusSquared] of the merged bounding sphere is
    labelled OUTSIDE whatever the bodies are; a point that passes it is
    labelled INSIDE exactly when some scaled body contains it, which is when
    the search over [bodies_] finds a first such body, and OUTSIDE
    otherwise. *)
Theorem containment_label sm data_in mask i pt :
  length mask = length (points data_in) ->
  points data_in !! i = Some pt ->
  let bound := mergeBoundingSpheres (bspheres_ sm) in
  let label := maskAuxContainment sm data_in mask !! i in
  ((radius bound * radius bound <= squaredNorm (vsub pt (center bound)))%Q ->
   label = Some OUTSIDE) /\
  ((squaredNorm (vsub pt (center bound)) < radius bound * radius bound)%Q ->
   (label = Some INSIDE <->
      is_Some (firstBody (fun sl => containsPoint (body sl) pt) (bodies_ sm))) /\
   (label = Some INSIDE <->
      exists sl, sl ∈ bodies_ sm /\ containsPoint (body sl) pt = true) /\
   (label = Some INSIDE \/ label = Some OUTSIDE)).
Proof.
  intros Hlen Hpt bound label. unfold label.
  rewrite (maskAuxContainment_lookup _ _ _ _ _ Hlen Hpt). fold bound.
  unfold containmentLabel. split.
  - intros Hd. apply Qltb_ge in Hd. by rewrite Hd.
  - intros Hd. apply Qltb_lt in Hd. rewrite Hd.
    rewrite <- containsLoop_firstBody, <- containsLoop_INSIDE.
    split; [|split].
    + split; congruence.
    + split; congruence.
    + destruct (containsLoop_cases (fun sl => containsPoint (body sl) pt) (bodies_ sm))
        as [-> | ->]; auto.
Qed.

(** X24.  For a point that passes the guard
    [diff.squaredNorm() < radiusSquared] of the merged bounding sphere, or a
    point that no scaled and no unscaled body contains, the single-point
    queries return what the batch loops store: [getMaskContainment] the
    label of [maskAuxContainment], and [getMaskIntersection] the label and
    the callback calls of [maskAuxIntersection]. *)
Theorem single_point_agrees_with_batch sm data_in mask callback i pt :
  length mask = length (points data_in) ->
  points data_in !! i = Some pt ->
  let bound := mergeBoundingSpheres (bspheres_ sm) in
  (squaredNorm (vsub pt (center bound)) < radius bound * radius bound)%Q \/
  (forall sl, sl ∈ bodies_ sm ->
     containsPoint (body sl) pt = false /\ containsPoint (unscaledBody sl) pt = false) ->
  maskAuxContainment sm data_in mask !! i = Some (getMaskContainment sm pt) /\
  intersectionLabel sm bound callback pt = getMaskIntersection sm callback pt /\
  b_mask (maskAuxIntersection sm data_in mask callback) !! i
    = Some (getMaskIntersection sm callback pt).1.
Proof.
  intros Hlen Hpt bound Hcase.
  rewrite (maskAuxContainment_lookup _ _ _ _ _ Hlen Hpt).
  rewrite (maskAuxIntersection_lookup _ _ _ _ _ _ Hlen Hpt). fold bound.
  assert (containmentLabel sm bound pt = getMaskContainment sm pt
          /\ intersectionLabel sm bound callback pt = getMaskIntersection sm callback pt)
    as [Hc Hi]; [|by rewrite Hc, Hi].
  unfold containmentLabel, intersectionLabel, getMaskContainment, getMaskIntersection.
  rewrite (Qltb_squaredNorm_sym (center bound) pt).
  destruct Hcase as [Hd | Hnone].
  - apply Qltb_lt in Hd. rewrite Hd. split; [done|].
    by rewrite guarded_containsLoop by (by left).
  - assert (containsLoop (fun sl => containsPoint (body sl) pt) (bodies_ sm) OUTSIDE
            = OUTSIDE) as Hs by (apply containsLoop_OUTSIDE; intros sl Hsl; by apply Hnone).
    assert (containsLoop (fun sl => containsPoint (unscaledBody sl) pt) (bodies_ sm) OUTSIDE
            = OUTSIDE) as Hu by (apply containsLoop_OUTSIDE; intros sl Hsl; by apply Hnone).
    rewrite Hs, Hu. rewrite guarded_containsLoop by (by right).
    by destruct (Qltb (squaredNorm _) _).
Qed.

(** ** Batches without bodies, batches without a sensor frame *)

Lemma maskAuxContainment_ext sm1 sm2 data_in mask :
  bodies_ sm1 = bodies_ sm2 -> bspheres_ sm1 = bspheres_ sm2 ->
  maskAuxContainment sm1 data_in mask = maskAuxContainment sm2 data_in mask.
Proof.
  intros Hb Hs. unfold maskAuxContainment, containmentLabel. by rewrite Hb, Hs.
Qed.

Lemma assumeFrame_frame_bodies tf_ frame t sensor_frame d sm :
  bodies_ (assumeFrame_frame tf_ frame t sensor_frame d sm).1
    = bodies_ (assumeFrame tf_ frame t sm).1 /\
  bspheres_ (assumeFrame_frame tf_ frame t sensor_frame d sm).1
    = bspheres_ (assumeFrame tf_ frame t sm).1 /\
  (assumeFrame_frame tf_ frame t sensor_frame d sm).2
    = (assumeFrame tf_ frame t sm).2
      ++ (if waitForTransform tf_ frame sensor_frame t then []
          else [ErrorWaitForTransform sensor_frame frame])
      ++ (match lookupTransform tf_ frame sensor_frame t with
          | Some _ => []
          | None => [ErrorLookupTransform sensor_frame frame]
          end).
Proof.
  unfold assumeFrame_frame. destruct (assumeFrame tf_ frame t sm) as [sm1 log].
  by destruct (waitForTransform _ _ _ _), (lookupTransform _ _ _ _).
Qed.

Lemma fill_OUTSIDE_resize n mask :
  fill_OUTSIDE (mask_resize n mask) = replicate n OUTSIDE.
Proof. unfold fill_OUTSIDE, mask_resize. by rewrite length_resize. Qed.

(** C10.  With an empty sensor frame id and at least one body,
    [maskIntersection] stores exactly the mask of [maskContainment]: every
    point of the cloud gets a label, each label is INSIDE or OUTSIDE, and the
    callback is not called. *)
Theorem empty_sensor_frame_is_containment_only tf_ sm data_in min_sensor_dist mask callback :
  bodies_ sm <> [] ->
  let r := maskIntersection_frame tf_ sm data_in "" min_sensor_dist mask callback in
  r_calls r = [] /\
  r_mask r = r_mask (maskContainment tf_ sm data_in mask) /\
  length (r_mask r) = length (points data_in) /\
  (forall i label, r_mask r !! i = Some label -> label = INSIDE \/ label = OUTSIDE).
Proof.
  intros Hne r.
  assert (r_calls r = [] /\ r_mask r = r_mask (maskContainment tf_ sm data_in mask)
          /\ r_mask r
             = containmentLabel (assumeFrame tf_ (frame_id data_in) (stamp data_in) sm).1
                 (mergeBoundingSpheres
                    (bspheres_ (assumeFrame tf_ (frame_id data_in) (stamp data_in) sm).1))
                 <$> points data_in) as (Hc & Hm & Hl).
  { unfold r, maskIntersection_frame, maskContainment.
    destruct (bodies_ sm) as [|sl rest] eqn:Hb; [done|].
    pose proof (assumeFrame_frame_bodies tf_ (frame_id data_in) (stamp data_in) ""
                  min_sensor_dist sm) as (H1 & H2 & _).
    destruct (assumeFrame_frame _ _ _ _ _ _) as [sm1 log1].
    destruct (assumeFrame _ _ _ _) as [sm2 log2]. simpl in *.
    rewrite (maskAuxContainment_ext sm1 sm2) by done.
    split; [done|]. split; [done|].
    apply maskAuxContainment_fmap. unfold mask_resize. apply length_resize. }
  split; [done|]. split; [done|]. rewrite Hl. split; [by rewrite length_fmap|].
  intros i label Hi. rewrite list_lookup_fmap in Hi.
  destruct (points data_in !! i) as [pt|]; [|done]. simpl in Hi. injection Hi as <-.
  unfold containmentLabel. destruct (Qltb _ _); [|by right].
  apply containsLoop_cases.
Qed.

(** C6.  With a robot model on the parameter server, [configure] of the
    empty list returns true and leaves no monitored link; and on an object
    without bodies [maskContainment] and both [maskIntersection] overloads
    label every point of the cloud OUTSIDE, log nothing, call nothing and
    leave the object as it is. *)
Theorem configure_nil_then_all_OUTSIDE (laws : ExternalsLaws E) nh_ sm content urdfModel :
  getParam nh_ "robot_description" = Some content ->
  initString content = Some urdfModel ->
  let sm' := (configure nh_ [] sm).1.2 in
  (configure nh_ [] sm).1.1 = true /\
  getLinkNames sm' [] = [] /\
  forall tf_ data_in mask callback sensor_frame sensor_pos min_sensor_dist,
    let all_outside := replicate (length (points data_in)) OUTSIDE in
    maskContainment tf_ sm' data_in mask = mkMaskResult sm' all_outside [] [] /\
    maskIntersection_frame tf_ sm' data_in sensor_frame min_sensor_dist mask callback
      = mkMaskResult sm' all_outside [] [] /\
    maskIntersection_pos tf_ sm' data_in sensor_pos min_sensor_dist mask callback
      = mkMaskResult sm' all_outside [] [].
Proof.
  intros Hparam Hparse sm'.
  assert ((configure nh_ [] sm).1.1 = true /\ bodies_ sm' = []) as [Hok Hb].
  { unfold sm', configure. rewrite Hparam, Hparse. simpl. split; [done|].
    apply Permutation_nil_r, (std_sort_perm E laws). }
  split; [done|]. split; [unfold getLinkNames; by rewrite Hb|].
  intros. unfold maskContainment, maskIntersection_frame, maskIntersection_pos.
  rewrite Hb, fill_OUTSIDE_resize. done.
Qed.

(** ** Frame updates *)

Lemma computeBoundingSpheres_prefix sm n :
  length (bspheres_ sm) = length (bodies_ sm) ->
  length (bspheresRadius2_ sm) = length (bodies_ sm) ->
  n <= length (bodies_ sm) ->
  foldl computeBoundingSphere_at sm (seq 0 n)
  = mkSelfMask (bodies_ sm)
      (((fun sl => computeBoundingSphere (body sl)) <$> take n (bodies_ sm))
         ++ drop n (bspheres_ sm))
      (((fun sl => (radius (computeBoundingSphere (body sl))
                    * radius (computeBoundingSphere (body sl)))%Q) <$> take n (bodies_ sm))
         ++ drop n (bspheresRadius2_ sm))
      (sensor_pos_ sm) (min_sensor_dist_ sm).
Proof.
  intros Hs Hr. induction n as [|n IH]; intros Hn; [by destruct sm|].
  rewrite seq_S, foldl_snoc, IH by lia. unfold computeBoundingSphere_at. simpl.
  destruct (lookup_lt_is_Some_2 (bodies_ sm) n) as [sl Hsl]; [lia|]. rewrite Hsl.
  destruct (lookup_lt_is_Some_2 (bspheres_ sm) n) as [s0 Hs0]; [lia|].
  destruct (lookup_lt_is_Some_2 (bspheresRadius2_ sm) n) as [r0 Hr0]; [lia|].
  rewrite !insert_app_r_alt by (rewrite length_fmap, length_take; lia).
  rewrite !length_fmap, !length_take, Nat.min_l by lia.
  rewrite Nat.sub_diag, (drop_S _ _ _ Hs0), (drop_S _ _ _ Hr0), (take_S_r _ _ _ Hsl).
  rewrite !fmap_app. simpl. by rewrite <- !app_assoc.
Qed.

Lemma computeBoundingSpheres_fmap sm :
  length (bspheres_ sm) = length (bodies_ sm) ->
  length (bspheresRadius2_ sm) = length (bodies_ sm) ->
  computeBoundingSpheres sm
  = mkSelfMask (bodies_ sm)
      ((fun sl => computeBoundingSphere (body sl)) <$> bodies_ sm)
      ((fun sl => (radius (computeBoundingSphere (body sl))
                   * radius (computeBoundingSphere (body sl)))%Q) <$> bodies_ sm)
      (sensor_pos_ sm) (min_sensor_dist_ sm).
Proof.
  intros Hs Hr. unfold computeBoundingSpheres.
  rewrite computeBoundingSpheres_prefix by done.
  rewrite firstn_all, !drop_ge by lia. by rewrite !app_nil_r.
Qed.

Lemma assumeFrame_link_placed tf_ frame t sl :
  (assumeFrame_link tf_ frame t sl).1
  = placed (default tf_identity (lookupTransform tf_ frame (name sl) t)) sl.
Proof.
  unfold assumeFrame_link. by destruct (lookupTransform _ _ _ _).
Qed.

Lemma assumeFrame_link_log tf_ frame t sl :
  (assumeFrame_link tf_ frame t sl).2
  = (if waitForTransform tf_ frame (name sl) t then []
     else [ErrorWaitForTransform (name sl) frame])
    ++ match lookupTransform tf_ frame (name sl) t with
       | Some _ => []
       | None => [ErrorLookupTransform (name sl) frame]
       end.
Proof. unfold assumeFrame_link. by destruct (lookupTransform _ _ _ _). Qed.

Lemma assumeFrame_log_of_link tf_ frame t sm i sl m :
  bodies_ sm !! i = Some sl ->
  m ∈ (assumeFrame_link tf_ frame t sl).2 -> m ∈ (assumeFrame tf_ frame t sm).2.
Proof.
  intros Hsl Hm. unfold assumeFrame. simpl.
  apply list_elem_of_In, in_concat. exists (assumeFrame_link tf_ frame t sl).2.
  split; [|by apply list_elem_of_In].
  apply list_elem_of_In. rewrite <- list_fmap_compose.
  apply list_elem_of_lookup. exists i. by rewrite list_lookup_fmap, Hsl.
Qed.

(** C8, as the code has it.  In [assumeFrame] the pose of a link is decided
    by [lookupTransform] for that link alone: when the lookup throws, the
    error is logged and the identity composed with the link's [constTransf]
    is set on both of its bodies; when it returns a transform, that
    transform composed with [constTransf] is set, whether or not
    [waitForTransform] timed out before, and a timeout is logged and
    nothing more.  Every other link is placed by its own lookup in the same
    way, whatever happened to this one, and afterwards the bounding sphere
    and its squared radius are stored for every (scaled) body at its new
    pose. *)
Theorem assumeFrame_places_every_link tf_ frame t sm i sl :
  bodies_ sm !! i = Some sl ->
  length (bspheres_ sm) = length (bodies_ sm) ->
  length (bspheresRadius2_ sm) = length (bodies_ sm) ->
  let sm' := (assumeFrame tf_ frame t sm).1 in
  let log := (assumeFrame tf_ frame t sm).2 in
  (lookupTransform tf_ frame (name sl) t = None ->
   bodies_ sm' !! i = Some (placed tf_identity sl) /\
   ErrorLookupTransform (name sl) frame ∈ log) /\
  (forall transf, lookupTransform tf_ frame (name sl) t = Some transf ->
   bodies_ sm' !! i = Some (placed transf sl)) /\
  (waitForTransform tf_ frame (name sl) t = false ->
   ErrorWaitForTransform (name sl) frame ∈ log) /\
  (forall j other, j <> i -> bodies_ sm !! j = Some other ->
   bodies_ sm' !! j
   = Some (placed (default tf_identity (lookupTransform tf_ frame (name other) t)) other)) /\
  length (bodies_ sm') = length (bodies_ sm) /\
  bspheres_ sm' = (fun sl => computeBoundingSphere (body sl)) <$> bodies_ sm' /\
  bspheresRadius2_ sm'
    = (fun sl => (radius (computeBoundingSphere (body sl))
                  * radius (computeBoundingSphere (body sl)))%Q) <$> bodies_ sm'.
Proof.
  intros Hsl Hs Hr sm' log.
  assert (forall j other, bodies_ sm !! j = Some other ->
            bodies_ sm' !! j
            = Some (placed (default tf_identity (lookupTransform tf_ frame (name other) t))
                      other)) as Hplaced.
  { intros j other Hj. unfold sm', assumeFrame. simpl.
    rewrite computeBoundingSpheres_fmap by (simpl; by rewrite !length_fmap). simpl.
    rewrite <- list_fmap_compose, list_lookup_fmap, Hj. simpl.
    by rewrite assumeFrame_link_placed. }
  split; [|split; [|split; [|split]]].
  - intros Hl. split; [by rewrite (Hplaced i sl Hsl), Hl|].
    apply (assumeFrame_log_of_link _ _ _ _ i sl); [done|].
    rewrite assumeFrame_link_log, Hl. apply elem_of_app. right. by left.
  - intros transf Hl. by rewrite (Hplaced i sl Hsl), Hl.
  - intros Hw. apply (assumeFrame_log_of_link _ _ _ _ i sl); [done|].
    rewrite assumeFrame_link_log, Hw. apply elem_of_app. left. by left.
  - intros j other _ Hj. by apply Hplaced.
  - unfold sm', assumeFrame. simpl.
    rewrite computeBoundingSpheres_fmap by (simpl; by rewrite !length_fmap).
    simpl. rewrite <- list_fmap_compose. split; [by rewrite length_fmap|done].
Qed.

(** ** Configuration *)

Lemma missingWarnings_app l1 l2 :
  missingWarnings (l1 ++ l2) = missingWarnings l1 ++ missingWarnings l2.
Proof. apply omap_app. Qed.

Lemma constructShape_no_missingWarnings geom :
  missingWarnings (constructShape geom).2 = [].
Proof.
  destruct geom; simpl; try done. by destruct (bool_decide _).
Qed.

Lemma configure_link_spec urdfModel st li :
  let st' := configure_link urdfModel st li in
  cl_bodies st' = cl_bodies st ++ option_list (buildLink urdfModel li) /\
  cl_missing st' = missingText (cl_missing st) (unknownLinks urdfModel [li]) /\
  missingWarnings (cl_log st') = missingWarnings (cl_log st).
Proof.
  unfold configure_link, buildLink, unknownLinks. simpl.
  rewrite filter_cons, filter_nil.
  destruct (getLink urdfModel (li_name li)) as [link|] eqn:Hl; simpl.
  2: { by rewrite app_nil_r. }
  destruct (collision link) as [[[geom|] orig]|]; simpl;
    try (rewrite missingWarnings_app; simpl; by rewrite !app_nil_r).
  pose proof (constructShape_no_missingWarnings geom) as Hm.
  destruct (constructShape geom) as [[shape|] msgs]; simpl in *.
  - destruct (createBodyFromShape shape) as [b|]; simpl.
    + rewrite missingWarnings_app, Hm. by rewrite app_nil_r.
    + rewrite !missingWarnings_app, Hm. simpl. by rewrite !app_nil_r.
  - rewrite !missingWarnings_app, Hm. simpl. by rewrite !app_nil_r.
Qed.

Lemma configure_loop_spec urdfModel links st :
  let st' := foldl (configure_link urdfModel) st links in
  cl_bodies st' = cl_bodies st ++ omap (buildLink urdfModel) links /\
  cl_missing st' = missingText (cl_missing st) (unknownLinks urdfModel links) /\
  missingWarnings (cl_log st') = missingWarnings (cl_log st).
Proof.
  revert st. induction links as [|li links IH]; intros st; simpl.
  - by rewrite app_nil_r.
  - destruct (IH (configure_link urdfModel st li)) as (Hb & Hm & Hw).
    destruct (configure_link_spec urdfModel st li) as (Hb1 & Hm1 & Hw1).
    rewrite Hb, Hm, Hw, Hb1, Hm1, Hw1. split; [|split; [|done]].
    + rewrite <- app_assoc. by destruct (buildLink urdfModel li).
    + unfold unknownLinks, missingText. rewrite !filter_cons, filter_nil.
      by destruct (decide _).
Qed.

Lemma configure_links_spec urdfModel links :
  let st := configure_links urdfModel links in
  cl_bodies st = omap (buildLink urdfModel) links /\
  cl_missing st = missingText "" (unknownLinks urdfModel links) /\
  missingWarnings (cl_log st) = [].
Proof. apply (configure_loop_spec urdfModel links (mkConfigureLoop [] "" [])). Qed.

Lemma String_length_app (s1 s2 : string) :
  String.length (s1 +:+ s2) = String.length s1 + String.length s2.
Proof. induction s1 as [|c s1 IH]; simpl; [done|]. by rewrite IH. Qed.

Lemma missingText_length acc names :
  String.length acc <= String.length (missingText acc names) /\
  (names <> [] -> 0 < String.length (missingText acc names)).
Proof.
  revert acc. induction names as [|n names IH]; intros acc; simpl; [done|].
  destruct (IH (acc +:+ " " +:+ n)) as [Hle _].
  rewrite !String_length_app in Hle. simpl in Hle. split; [lia|]. intros _. lia.
Qed.

Lemma SortBodies_StrictWeakOrder : StrictWeakOrder SortBodies.
Proof.
  unfold SortBodies. split.
  - intros x. apply Qltb_ge, Qle_refl.
  - intros x y z Hxy Hyz. apply Qltb_lt in Hxy, Hyz. apply Qltb_lt.
    by apply (Qlt_trans _ (volume y)).
  - intros x y z Hxy Hyz. apply Qltb_ge in Hxy, Hyz. apply Qltb_ge.
    by apply (Qle_trans _ (volume y)).
Qed.

Lemma StronglySorted_lookup {A} (R : A -> A -> Prop) (l : list A) i j a b :
  StronglySorted R l -> i < j -> l !! i = Some a -> l !! j = Some b -> R a b.
Proof.
  intros Hs. revert i j. induction Hs as [|x l Hs IH Hall]; intros i j Hij Hi Hj; [done|].
  destruct j as [|j]; [lia|]. simpl in Hj. destruct i as [|i]; simpl in Hi.
  - injection Hi as ->. rewrite Forall_forall in Hall. apply Hall.
    apply list_elem_of_lookup. by exists j.
  - apply (IH i j); [lia|done|done].
Qed.

Lemma configure_without_model nh_ links sm :
  robotModel nh_ = None -> (configure nh_ links sm).1.1 = false.
Proof.
  unfold robotModel, configure. intros Hm.
  destruct (getParam nh_ "robot_description") as [content|]; [|done].
  simpl in Hm. by rewrite Hm.
Qed.

Lemma configure_with_model nh_ links sm urdfModel :
  robotModel nh_ = Some urdfModel ->
  configure nh_ links sm
  = let st := configure_links urdfModel links in
    let sorted := std_sort SortBodies (cl_bodies st) in
    (true,
     mkSelfMask sorted
       (resize (length sorted) BoundingSphere0 (bspheres_ sm))
       (resize (length sorted) 0%Q (bspheresRadius2_ sm))
       vzero (min_sensor_dist_ sm),
     (if bool_decide (0 < String.length (cl_missing st))
      then cl_log st ++ [WarnMissingLinks (cl_missing st)] else cl_log st)
     ++ match cl_bodies st with [] => [WarnNoLinks] | _ => [] end).
Proof.
  unfold robotModel, configure. intros Hm.
  destruct (getParam nh_ "robot_description") as [content|]; [|done]. simpl in Hm.
  rewrite Hm. simpl. destruct (cl_bodies _); by rewrite ?app_nil_r.
Qed.

(** C5, as the code has it.  After a [configure] that found the robot
    model, [bodies_] is in order of non-increasing volume (any earlier body
    has at least the volume of any later one, adjacent ones in particular)
    and is a rearrangement of the bodies built from the entries of [links];
    [std::sort] decides the order of bodies of equal volume. *)
Theorem configure_sorts_by_volume (laws : ExternalsLaws E) nh_ links sm urdfModel :
  robotModel nh_ = Some urdfModel ->
  let sm' := (configure nh_ links sm).1.2 in
  StronglySorted (fun a b => (volume b <= volume a)%Q) (bodies_ sm') /\
  (forall i a b, bodies_ sm' !! i = Some a -> bodies_ sm' !! (S i) = Some b ->
                 (volume b <= volume a)%Q) /\
  bodies_ sm' ≡ₚ omap (buildLink urdfModel) links.
Proof.
  intros Hm sm'. unfold sm'. rewrite (configure_with_model _ _ _ _ Hm). simpl.
  destruct (configure_links_spec urdfModel links) as (Hb & _ & _). rewrite Hb.
  pose proof (std_sort_sorted E laws _ SortBodies (omap (buildLink urdfModel) links)
                SortBodies_StrictWeakOrder) as Hs.
  assert (forall i j a b, i < j ->
            std_sort SortBodies (omap (buildLink urdfModel) links) !! i = Some a ->
            std_sort SortBodies (omap (buildLink urdfModel) links) !! j = Some b ->
            (volume b <= volume a)%Q) as Hlookup.
  { intros i j a b Hij Hi Hj. apply Qltb_ge.
    apply (StronglySorted_lookup _ _ i j a b Hs Hij Hi Hj). }
  split; [|split].
  - clear Hlookup. induction Hs as [|x l Hs IH Hall]; constructor; [done|].
    eapply Forall_impl; [exact Hall|]. intros y Hy. by apply Qltb_ge.
  - intros i a b. apply Hlookup. lia.
  - apply (std_sort_perm E laws).
Qed.

(** C7.  [configure] returns false exactly when there is no robot model
    (the parameter is missing or does not parse).  With a model it returns
    true whatever the entries of [links] are: [bodies_] holds, in some
    order, one body for each entry that could be built and none for the
    others, and the unknown link names are reported in a single warning
    (none when every name is known). *)
Theorem configure_fails_only_without_model (laws : ExternalsLaws E) nh_ links sm :
  ((configure nh_ links sm).1.1 = false <-> robotModel nh_ = None) /\
  (forall urdfModel, robotModel nh_ = Some urdfModel ->
     (configure nh_ links sm).1.1 = true /\
     bodies_ (configure nh_ links sm).1.2 ≡ₚ omap (buildLink urdfModel) links /\
     missingWarnings (configure nh_ links sm).2
       = match unknownLinks urdfModel links with
         | [] => []
         | names => [missingText "" names]
         end).
Proof.
  split.
  - destruct (robotModel nh_) as [urdfModel|] eqn:Hm.
    + rewrite (configure_with_model _ _ _ _ Hm). done.
    + by rewrite (configure_without_model _ _ _ Hm).
  - intros urdfModel Hm. rewrite (configure_with_model _ _ _ _ Hm). simpl.
    destruct (configure_links_spec urdfModel links) as (Hb & Hmiss & Hw).
    split; [done|]. split; [rewrite Hb; apply (std_sort_perm E laws)|].
    rewrite missingWarnings_app.
    assert (missingWarnings match cl_bodies (configure_links urdfModel links) with
                            | [] => [WarnNoLinks] | _ :: _ => [] end = []) as ->
      by (by destruct (cl_bodies _)).
    rewrite app_nil_r, Hmiss.
    destruct (unknownLinks urdfModel links) as [|n names] eqn:Hu.
    + simpl. by rewrite Hw.
    + destruct (missingText_length "" (n :: names)) as [_ Hpos].
      rewrite bool_decide_eq_true_2 by (by apply Hpos).
      rewrite missingWarnings_app, Hw. done.
Qed.

(** [configure] leaves one bounding sphere slot per body. *)
Lemma configure_sizes nh_ links sm :
  let sm' := (configure nh_ links sm).1.2 in
  (configure nh_ links sm).1.1 = true ->
  length (bspheres_ sm') = length (bodies_ sm') /\
  length (bspheresRadius2_ sm') = length (bodies_ sm').
Proof.
  destruct (robotModel nh_) as [urdfModel|] eqn:Hm.
  - rewrite (configure_with_model _ _ _ _ Hm). simpl. by rewrite !length_resize.
  - intros sm' Hok. by rewrite (configure_without_model _ _ _ Hm) in Hok.
Qed.

(** ** Reconfiguration *)

(** X1.  Without a robot model (parameter missing or not parsable)
    [configure] returns false with exactly one error on the console, and the
    bodies of an earlier configuration are gone all the same: [bodies_] is
    empty and the sensor position is the origin, while the bounding sphere
    slots and the minimum sensor distance stay as they were. *)
Theorem configure_failure_frees_bodies nh_ links sm :
  robotModel nh_ = None ->
  configure nh_ links sm
  = (false,
     mkSelfMask [] (bspheres_ sm) (bspheresRadius2_ sm) vzero (min_sensor_dist_ sm),
     [match getParam nh_ "robot_description" with
      | Some _ => ErrorParseURDF
      | None => ErrorModelNotFound
      end]).
Proof.
  unfold robotModel, configure. intros Hm.
  destruct (getParam nh_ "robot_description") as [content|]; simpl in *; [|done].
  by rewrite Hm.
Qed.

(** X2.  What [configure] returns, the bodies it leaves, the sensor position
    it leaves (the origin) and what it logs do not depend on the object it
    is called on: nothing of an earlier configuration survives in them. *)
Theorem configure_forgets_previous nh_ links sm1 sm2 :
  (configure nh_ links sm1).1.1 = (configure nh_ links sm2).1.1 /\
  bodies_ (configure nh_ links sm1).1.2 = bodies_ (configure nh_ links sm2).1.2 /\
  sensor_pos_ (configure nh_ links sm1).1.2 = vzero /\
  (configure nh_ links sm1).2 = (configure nh_ links sm2).2.
Proof.
  unfold configure.
  destruct (getParam nh_ "robot_description") as [content|]; [|done].
  by destruct (initString content).
Qed.

(** X3.  Calling [configure] again with the same links on the object it
    left gives the same return value, the same object and the same console
    output. *)
Theorem configure_idempotent nh_ links sm :
  configure nh_ links (configure nh_ links sm).1.2 = configure nh_ links sm.
Proof.
  unfold configure.
  destruct (getParam nh_ "robot_description") as [content|]; [|done].
  destruct (initString content) as [urdfModel|]; [|done].
  simpl. by rewrite !resize_idemp.
Qed.

(** X4.  A [configure] that returns true leaves one bounding sphere slot and
    one squared radius slot per body. *)
Theorem configure_one_sphere_per_body nh_ links sm :
  (configure nh_ links sm).1.1 = true -> sized (configure nh_ links sm).1.2.
Proof. intros Hok. by apply configure_sizes. Qed.

(** ** More on frame updates *)

Lemma computeBoundingSpheres_bodies sm : bodies_ (computeBoundingSpheres sm) = bodies_ sm.
Proof.
  unfold computeBoundingSpheres. generalize (seq 0 (length (bodies_ sm))). intros l.
  revert sm. induction l as [|i l IH]; intros sm; [done|]. simpl. rewrite IH.
  unfold computeBoundingSphere_at. by destruct (bodies_ sm !! i).
Qed.

Lemma computeBoundingSpheres_sensor sm :
  sensor_pos_ (computeBoundingSpheres sm) = sensor_pos_ sm /\
  min_sensor_dist_ (computeBoundingSpheres sm) = min_sensor_dist_ sm.
Proof.
  unfold computeBoundingSpheres. generalize (seq 0 (length (bodies_ sm))). intros l.
  revert sm. induction l as [|i l IH]; intros sm; [done|]. simpl.
  destruct (IH (computeBoundingSphere_at sm i)) as [-> ->].
  unfold computeBoundingSphere_at. by destruct (bodies_ sm !! i).
Qed.

Lemma assumeFrame_pos_bodies tf_ frame t sensor_pos d sm :
  bodies_ (assumeFrame_pos tf_ frame t sensor_pos d sm).1
    = bodies_ (assumeFrame tf_ frame t sm).1 /\
  bspheres_ (assumeFrame_pos tf_ frame t sensor_pos d sm).1
    = bspheres_ (assumeFrame tf_ frame t sm).1 /\
  bspheresRadius2_ (assumeFrame_pos tf_ frame t sensor_pos d sm).1
    = bspheresRadius2_ (assumeFrame tf_ frame t sm).1 /\
  (assumeFrame_pos tf_ frame t sensor_pos d sm).2 = (assumeFrame tf_ frame t sm).2.
Proof.
  unfold assumeFrame_pos. by destruct (assumeFrame tf_ frame t sm) as [sm1 log].
Qed.

Lemma assumeFrame_frame_radius2 tf_ frame t sensor_frame d sm :
  bspheresRadius2_ (assumeFrame_frame tf_ frame t sensor_frame d sm).1
    = bspheresRadius2_ (assumeFrame tf_ frame t sm).1.
Proof.
  unfold assumeFrame_frame. destruct (assumeFrame tf_ frame t sm) as [sm1 log].
  by destruct (waitForTransform _ _ _ _), (lookupTransform _ _ _ _).
Qed.

(** X5.  Each of the three [assumeFrame] overloads keeps one bounding sphere
    slot and one squared radius slot per body. *)
Theorem frame_update_keeps_sizes tf_ frame t sensor_frame sensor_pos d sm :
  sized sm ->
  sized (assumeFrame tf_ frame t sm).1 /\
  sized (assumeFrame_pos tf_ frame t sensor_pos d sm).1 /\
  sized (assumeFrame_frame tf_ frame t sensor_frame d sm).1.
Proof.
  intros [Hs Hr].
  assert (sized (assumeFrame tf_ frame t sm).1) as Hsized.
  { unfold assumeFrame. simpl.
    rewrite computeBoundingSpheres_fmap by (simpl; by rewrite !length_fmap).
    split; simpl; by rewrite !length_fmap. }
  split; [done|]. destruct Hsized as [Hs' Hr']. unfold sized.
  destruct (assumeFrame_pos_bodies tf_ frame t sensor_pos d sm) as (-> & -> & -> & _).
  destruct (assumeFrame_frame_bodies tf_ frame t sensor_frame d sm) as (-> & -> & _).
  by rewrite assumeFrame_frame_radius2.
Qed.

(** X6.  A frame update moves the bodies and nothing else: after each of the
    three overloads the links have the names, the volumes and the constant
    transforms they had, in the same order, so [getLinkNames] answers as
    before and the order by volume is kept. *)
Theorem frame_update_keeps_links tf_ frame t sensor_frame sensor_pos d sm :
  let same sm' :=
    name <$> bodies_ sm' = name <$> bodies_ sm /\
    volume <$> bodies_ sm' = volume <$> bodies_ sm /\
    constTransf <$> bodies_ sm' = constTransf <$> bodies_ sm /\
    getLinkNames sm' [] = getLinkNames sm [] in
  same (assumeFrame tf_ frame t sm).1 /\
  same (assumeFrame_pos tf_ frame t sensor_pos d sm).1 /\
  same (assumeFrame_frame tf_ frame t sensor_frame d sm).1.
Proof.
  intros same.
  assert (same (assumeFrame tf_ frame t sm).1) as Hsame.
  { unfold same, getLinkNames, assumeFrame. simpl.
    rewrite computeBoundingSpheres_bodies. simpl.
    assert (forall {B} (f : SeeLink -> B),
              (forall sl, f (assumeFrame_link tf_ frame t sl).1 = f sl) ->
              f <$> (fst <$> (assumeFrame_link tf_ frame t <$> bodies_ sm))
              = f <$> bodies_ sm) as Hext.
    { intros B f Hf. induction (bodies_ sm) as [|sl rest IH]; [done|].
      by rewrite !fmap_cons, Hf, IH. }
    rewrite !Hext; [done| | |];
      intros sl; unfold assumeFrame_link; by destruct (lookupTransform _ _ _ _). }
  split; [done|]. unfold same in *.
  destruct (assumeFrame_pos_bodies tf_ frame t sensor_pos d sm) as (Hp & _).
  destruct (assumeFrame_frame_bodies tf_ frame t sensor_frame d sm) as (Hf & _).
  unfold getLinkNames in *. by rewrite Hp, Hf.
Qed.

(** X7.  The sensor state after a frame update.  The overload with a sensor
    position stores that position; the overload with a sensor frame stores
    the origin of the looked-up transform of that frame, or the origin
    (0,0,0) when the lookup throws, whether or not [waitForTransform] timed
    out before; both store the minimum sensor distance they are given; the
    overload without sensor leaves both as they were. *)
Theorem frame_update_sensor tf_ frame t sensor_frame sensor_pos d sm :
  (sensor_pos_ (assumeFrame tf_ frame t sm).1 = sensor_pos_ sm /\
   min_sensor_dist_ (assumeFrame tf_ frame t sm).1 = min_sensor_dist_ sm) /\
  (sensor_pos_ (assumeFrame_pos tf_ frame t sensor_pos d sm).1 = sensor_pos /\
   min_sensor_dist_ (assumeFrame_pos tf_ frame t sensor_pos d sm).1 = d) /\
  (sensor_pos_ (assumeFrame_frame tf_ frame t sensor_frame d sm).1
     = match lookupTransform tf_ frame sensor_frame t with
       | Some transf => getOrigin transf
       | None => vzero
       end /\
   min_sensor_dist_ (assumeFrame_frame tf_ frame t sensor_frame d sm).1 = d).
Proof.
  split; [|split].
  - unfold assumeFrame. simpl.
    by destruct (computeBoundingSpheres_sensor
                   (mkSelfMask (assumeFrame_link tf_ frame t <$> bodies_ sm).*1
                      (bspheres_ sm) (bspheresRadius2_ sm) (sensor_pos_ sm)
                      (min_sensor_dist_ sm))) as [-> ->].
  - unfold assumeFrame_pos. by destruct (assumeFrame tf_ frame t sm).
  - unfold assumeFrame_frame. destruct (assumeFrame tf_ frame t sm).
    by destruct (waitForTransform _ _ _ _), (lookupTransform _ _ _ _).
Qed.

(** X8.  [assumeFrame] logs nothing exactly when, for every body, the wait
    succeeds and the lookup returns a transform; and every message it logs
    is a wait or lookup error that names one of the monitored links and the
    target frame. *)
Theorem assumeFrame_log tf_ frame t sm :
  ((assumeFrame tf_ frame t sm).2 = [] <->
   forall sl, sl ∈ bodies_ sm ->
     waitForTransform tf_ frame (name sl) t = true /\
     is_Some (lookupTransform tf_ frame (name sl) t)) /\
  (forall m, m ∈ (assumeFrame tf_ frame t sm).2 ->
   exists sl, sl ∈ bodies_ sm /\
     (m = ErrorWaitForTransform (name sl) frame \/
      m = ErrorLookupTransform (name sl) frame)).
Proof.
  unfold assumeFrame. simpl. rewrite <- list_fmap_compose.
  induction (bodies_ sm) as [|sl rest [IHnil IHmsg]]; simpl.
  - split; [split; [|done]|].
    + intros _ sl Hin. by apply elem_of_nil in Hin.
    + intros m Hin. by apply elem_of_nil in Hin.
  - assert ((assumeFrame_link tf_ frame t sl).2
            = (if waitForTransform tf_ frame (name sl) t then []
               else [ErrorWaitForTransform (name sl) frame])
              ++ (match lookupTransform tf_ frame (name sl) t with
                  | Some _ => []
                  | None => [ErrorLookupTransform (name sl) frame]
                  end)) as Hlink
      by (unfold assumeFrame_link; by destruct (lookupTransform _ _ _ _)).
    rewrite Hlink. split; [split|].
    + intros Hnil. apply app_eq_nil in Hnil as [Hhere Hrest].
      apply app_eq_nil in Hhere as [Hw Hl].
      intros sl' Hin. apply elem_of_cons in Hin as [->|Hin]; [|by apply IHnil].
      destruct (waitForTransform _ _ _ _); [|done].
      by destruct (lookupTransform _ _ _ _).
    + intros Hall.
      destruct (Hall sl) as [-> [transf ->]]; [left|]. simpl.
      apply IHnil. intros sl' Hin. apply Hall. by right.
    + intros m Hin. apply elem_of_app in Hin as [Hin|Hin].
      * exists sl. split; [left|].
        apply elem_of_app in Hin as [Hin|Hin].
        -- destruct (waitForTransform _ _ _ _); [by apply elem_of_nil in Hin|].
           apply list_elem_of_singleton in Hin. by left.
        -- destruct (lookupTransform _ _ _ _); [by apply elem_of_nil in Hin|].
           apply list_elem_of_singleton in Hin. by right.
      * destruct (IHmsg m Hin) as (sl' & Hin' & Hm). exists sl'. split; [by right|done].
Qed.

(** ** More on the labels *)

(** X9.  Whatever mask is handed in, [maskContainment] and both
    [maskIntersection] overloads hand back a mask with exactly one label per
    point of the cloud. *)
Theorem mask_has_one_label_per_point tf_ sm data_in mask callback sensor_frame sensor_pos d :
  length (r_mask (maskContainment tf_ sm data_in mask)) = length (points data_in) /\
  length (r_mask (maskIntersection_frame tf_ sm data_in sensor_frame d mask callback))
    = length (points data_in) /\
  length (r_mask (maskIntersection_pos tf_ sm data_in sensor_pos d mask callback))
    = length (points data_in).
Proof.
  assert (length (mask_resize (length (points data_in)) mask) = length (points data_in))
    as Hresize by apply length_resize.
  unfold maskContainment, maskIntersection_frame, maskIntersection_pos.
  destruct (bodies_ sm) as [|sl rest].
  { simpl. by rewrite fill_OUTSIDE_resize, length_replicate. }
  destruct (assumeFrame tf_ (frame_id data_in) (stamp data_in) sm) as [sm1 log1].
  destruct (assumeFrame_frame tf_ (frame_id data_in) (stamp data_in) sensor_frame d sm)
    as [sm2 log2].
  destruct (assumeFrame_pos tf_ (frame_id data_in) (stamp data_in) sensor_pos d sm)
    as [sm3 log3]. simpl.
  split; [|split].
  - by rewrite maskAuxContainment_fmap, length_fmap.
  - destruct (bool_decide _); simpl.
    + by rewrite maskAuxContainment_fmap, length_fmap.
    + rewrite maskAuxIntersection_fmap by done. simpl. by rewrite !length_fmap.
  - rewrite maskAuxIntersection_fmap by done. simpl. by rewrite !length_fmap.
Qed.

(** X10.  [getMaskContainment] answers INSIDE exactly when some scaled body
    contains the point and OUTSIDE exactly when none does; it never answers
    SHADOW. *)
Theorem getMaskContainment_spec sm pt :
  (getMaskContainment sm pt = INSIDE <->
   exists sl, sl ∈ bodies_ sm /\ containsPoint (body sl) pt = true) /\
  (getMaskContainment sm pt = OUTSIDE <->
   forall sl, sl ∈ bodies_ sm -> containsPoint (body sl) pt = false) /\
  getMaskContainment sm pt <> SHADOW.
Proof.
  unfold getMaskContainment. split; [|split].
  - apply (containsLoop_INSIDE (fun sl => containsPoint (body sl) pt)).
  - apply (containsLoop_OUTSIDE (fun sl => containsPoint (body sl) pt)).
  - by destruct (containsLoop_cases (fun sl => containsPoint (body sl) pt) (bodies_ sm))
      as [-> | ->].
Qed.

(** X11.  [maskContainment] never calls anything and never stores SHADOW;
    and where it stores INSIDE, some scaled body, at the pose the frame
    update gave it, contains that point of the cloud. *)
Theorem maskContainment_sound tf_ sm data_in mask i :
  let r := maskContainment tf_ sm data_in mask in
  r_calls r = [] /\
  r_mask r !! i <> Some SHADOW /\
  (r_mask r !! i = Some INSIDE ->
   exists pt sl, points data_in !! i = Some pt /\ sl ∈ bodies_ (r_self r) /\
                 containsPoint (body sl) pt = true).
Proof.
  unfold maskContainment.
  destruct (bodies_ sm) as [|sl0 rest] eqn:Hb.
  { simpl. rewrite fill_OUTSIDE_resize. split; [done|].
    split; intros Hi; apply lookup_replicate in Hi as [? _]; done. }
  destruct (assumeFrame tf_ (frame_id data_in) (stamp data_in) sm) as [sm1 log1]. simpl.
  rewrite maskAuxContainment_fmap by apply length_resize.
  rewrite list_lookup_fmap. split; [done|].
  destruct (points data_in !! i) as [pt|]; simpl; [|done].
  unfold containmentLabel.
  destruct (Qltb _ _); [|done].
  pose proof (containsLoop_cases (fun sl => containsPoint (body sl) pt) (bodies_ sm1))
    as Hcases.
  split.
  - intros Hs. injection Hs as Hs. rewrite Hs in Hcases. by destruct Hcases.
  - intros Hin. injection Hin as Hin.
    apply (containsLoop_INSIDE (fun sl => containsPoint (body sl) pt)) in Hin
      as (sl & Hsl & Hc).
    by exists pt, sl.
Qed.

(** The shadow loop entered with OUTSIDE ends with OUTSIDE and no call, or
    with SHADOW and, when a callback is set, one call. *)
Lemma shadowLoop_cases sensor_pos pt dir_eigen dir callback bodies st :
  sh_out st = OUTSIDE ->
  let st' := shadowLoop sensor_pos pt dir_eigen dir callback bodies st in
  (sh_out st' = OUTSIDE /\ sh_calls st' = sh_calls st) \/
  (sh_out st' = SHADOW /\
   exists tmp, sh_calls st' = sh_calls st ++ (if callback then [tmp] else [])).
Proof.
  revert st. induction bodies as [|sl rest IH]; intros st Hout; simpl; [by left|].
  rewrite Hout. simpl.
  destruct (intersectsRay (body sl) pt dir_eigen (sh_intersections st) 1)
    as [hit intersections].
  assert (forall ints,
            let st' := shadowLoop sensor_pos pt dir_eigen dir callback rest
                         (mkShadowLoop OUTSIDE ints (sh_calls st)) in
            (sh_out st' = OUTSIDE /\ sh_calls st' = sh_calls st) \/
            (sh_out st' = SHADOW /\
             exists tmp, sh_calls st' = sh_calls st ++ (if callback then [tmp] else [])))
    as Hgo by (intros ints; by apply (IH (mkShadowLoop OUTSIDE ints (sh_calls st)))).
  destruct hit; [|apply Hgo].
  destruct intersections as [|tmp others]; [apply Hgo|].
  destruct (dot_nonneg dir (vsub sensor_pos tmp)); [|apply Hgo].
  right. rewrite shadowLoop_stops by done. simpl. split; [done|]. by exists tmp.
Qed.

(** The label and the vector of the shadow loop do not depend on whether a
    callback is set. *)
Lemma shadowLoop_callback sensor_pos pt dir_eigen dir bodies st1 st2 :
  sh_out st1 = sh_out st2 -> sh_intersections st1 = sh_intersections st2 ->
  sh_out (shadowLoop sensor_pos pt dir_eigen dir true bodies st1)
  = sh_out (shadowLoop sensor_pos pt dir_eigen dir false bodies st2).
Proof.
  revert st1 st2. induction bodies as [|sl rest IH]; intros st1 st2 Hout Hints; [done|].
  simpl. rewrite Hout, Hints.
  destruct (Label_eqb (sh_out st2) OUTSIDE); [|done].
  destruct (intersectsRay (body sl) pt dir_eigen (sh_intersections st2) 1)
    as [hit intersections].
  destruct hit; [destruct intersections as [|tmp others]|]; try by apply IH.
  destruct (dot_nonneg dir (vsub sensor_pos tmp)); by apply IH.
Qed.


(** X12.  The callback is diagnostic only: the labels [maskAuxIntersection]
    stores and the label [getMaskIntersection] returns are the same with and
    without a callback, and without a callback nothing is called. *)
Theorem labels_do_not_depend_on_callback sm data_in mask pt :
  b_mask (maskAuxIntersection sm data_in mask true)
    = b_mask (maskAuxIntersection sm data_in mask false) /\
  (getMaskIntersection sm true pt).1 = (getMaskIntersection sm false pt).1 /\
  (getMaskIntersection sm false pt).2 = [].
Proof.
  assert (forall bound p,
            (intersectionLabel sm bound true p).1 = (intersectionLabel sm bound false p).1)
    as Hlabel.
  { intros bound p. unfold intersectionLabel.
    destruct (if Qltb (squaredNorm (vsub (center bound) p)) (radius bound * radius bound)
              then containsLoop (fun sl => containsPoint (unscaledBody sl) p)
                     (bodies_ sm) OUTSIDE
              else OUTSIDE); simpl; try done.
    destruct (Qltb (vlength _) _); [done|]. simpl.
    by rewrite (shadowLoop_callback _ _ _ _ _ (mkShadowLoop OUTSIDE [] [])
                  (mkShadowLoop OUTSIDE [] [])). }
  split; [|split].
  - unfold maskAuxIntersection.
    generalize (seq 0 (length (points data_in))). intros l.
    assert (forall st1 st2, b_mask st1 = b_mask st2 ->
              b_mask (foldl (fun st i =>
                        match points data_in !! i with
                        | Some p =>
                            let '(out, calls) :=
                              intersectionLabel sm (mergeBoundingSpheres (bspheres_ sm)) true p in
                            mkBatch (<[i := out]> (b_mask st)) (b_calls st ++ calls)
                        | None => st
                        end) st1 l)
              = b_mask (foldl (fun st i =>
                        match points data_in !! i with
                        | Some p =>
                            let '(out, calls) :=
                              intersectionLabel sm (mergeBoundingSpheres (bspheres_ sm)) false p in
                            mkBatch (<[i := out]> (b_mask st)) (b_calls st ++ calls)
                        | None => st
                        end) st2 l)) as Hfold; [|by apply Hfold].
    induction l as [|i l IH]; intros st1 st2 Hst; [done|]. simpl. apply IH.
    destruct (points data_in !! i) as [p|]; [|done].
    pose proof (Hlabel (mergeBoundingSpheres (bspheres_ sm)) p) as Hp.
    destruct (intersectionLabel _ _ true p), (intersectionLabel _ _ false p).
    simpl in *. by rewrite Hp, Hst.
  - unfold getMaskIntersection.
    destruct (containsLoop (fun sl => containsPoint (unscaledBody sl) pt) (bodies_ sm) OUTSIDE);
      simpl; try done.
    destruct (Qltb (vlength _) _); [done|]. simpl.
    by rewrite (shadowLoop_callback _ _ _ _ _ (mkShadowLoop OUTSIDE [] [])
                  (mkShadowLoop OUTSIDE [] [])).
  - unfold getMaskIntersection.
    destruct (containsLoop (fun sl => containsPoint (unscaledBody sl) pt) (bodies_ sm) OUTSIDE)
      eqn:Hu; simpl; try done.
    destruct (Qltb (vlength _) _); [done|]. simpl.
    by destruct (shadowLoop_cases (sensor_pos_ sm) pt (vsub (sensor_pos_ sm) pt)
              (vdiv (vsub (sensor_pos_ sm) pt) (vlength (vsub (sensor_pos_ sm) pt)))
              false (bodies_ sm) (mkShadowLoop OUTSIDE [] []) eq_refl)
      as [[_ ->] | [_ [tmp ->]]].
Qed.



(** ** More on the shadow test *)

Lemma shadowLoop_misses sensor_pos pt dir_eigen dir callback before rest calls :
  (forall b, b ∈ before -> intersectsRay (body b) pt dir_eigen [] 1 = (false, [])) ->
  shadowLoop sensor_pos pt dir_eigen dir callback (before ++ rest)
    (mkShadowLoop OUTSIDE [] calls)
  = shadowLoop sensor_pos pt dir_eigen dir callback rest (mkShadowLoop OUTSIDE [] calls).
Proof.
  induction before as [|b before IH]; intros Hmiss; [done|]. simpl.
  rewrite (Hmiss b) by left. simpl. apply IH. intros b' Hin. apply Hmiss. by right.
Qed.

(** X14.  Where the shadow test works.  For a point in no unscaled body and
    not closer to the sensor than the minimum distance: if the ray tests of
    the bodies before [sl] miss and store nothing, the ray test of [sl]
    reports a hit, and the first point it stored lies on the sensor's side
    (direction test), then the point is labelled SHADOW, by
    [getMaskIntersection] and by the batch loop, and the callback, if set,
    is called once, with that point. *)
Theorem first_hit_shadows sm callback pt before sl after tmp others :
  bodies_ sm = before ++ sl :: after ->
  (forall b, b ∈ bodies_ sm -> containsPoint (unscaledBody b) pt = false) ->
  (min_sensor_dist_ sm <= vlength (vsub (sensor_pos_ sm) pt))%Q ->
  (forall b, b ∈ before ->
     intersectsRay (body b) pt (vsub (sensor_pos_ sm) pt) [] 1 = (false, [])) ->
  intersectsRay (body sl) pt (vsub (sensor_pos_ sm) pt) [] 1 = (true, tmp :: others) ->
  dot_nonneg (vdiv (vsub (sensor_pos_ sm) pt) (vlength (vsub (sensor_pos_ sm) pt)))
    (vsub (sensor_pos_ sm) tmp) = true ->
  getMaskIntersection sm callback pt = (SHADOW, if callback then [tmp] else []) /\
  forall bound,
    intersectionLabel sm bound callback pt = (SHADOW, if callback then [tmp] else []).
Proof.
  intros Hbodies Hunscaled Hfar Hmiss Hhit Hdot.
  apply (containsLoop_OUTSIDE (fun b => containsPoint (unscaledBody b) pt)) in Hunscaled.
  apply Qltb_ge in Hfar.
  assert (shadowLoop (sensor_pos_ sm) pt (vsub (sensor_pos_ sm) pt)
            (vdiv (vsub (sensor_pos_ sm) pt) (vlength (vsub (sensor_pos_ sm) pt)))
            callback (bodies_ sm) (mkShadowLoop OUTSIDE [] [])
          = mkShadowLoop SHADOW (tmp :: others) (if callback then [tmp] else [])) as Hloop.
  { rewrite Hbodies, shadowLoop_misses by done. simpl. rewrite Hhit, Hdot. simpl.
    by apply shadowLoop_stops. }
  split.
  - unfold getMaskIntersection. rewrite Hunscaled. simpl. rewrite Hfar, Hloop. simpl.
    by rewrite containsLoop_not_OUTSIDE.
  - intros bound. unfold intersectionLabel. rewrite Hunscaled.
    destruct (Qltb (squaredNorm _) _); simpl; by rewrite Hfar, Hloop.
Qed.

(** X15.  Where the shadow test stops working.  When ray tests append to the
    vector they are given: if the ray tests of the bodies before [sl] miss
    and store nothing, and the first point stored by the ray test of [sl]
    fails the direction test, then the point is not labelled SHADOW and the
    callback is not called, whatever the ray tests of the bodies after [sl]
    find. *)
Theorem first_hit_beyond_sensor_blocks_shadow sm callback pt before sl after tmp others :
  raysAppend ->
  bodies_ sm = before ++ sl :: after ->
  (forall b, b ∈ before ->
     intersectsRay (body b) pt (vsub (sensor_pos_ sm) pt) [] 1 = (false, [])) ->
  intersectsRay (body sl) pt (vsub (sensor_pos_ sm) pt) [] 1 = (true, tmp :: others) ->
  dot_nonneg (vdiv (vsub (sensor_pos_ sm) pt) (vlength (vsub (sensor_pos_ sm) pt)))
    (vsub (sensor_pos_ sm) tmp) = false ->
  ((getMaskIntersection sm callback pt).1 <> SHADOW /\
   (getMaskIntersection sm callback pt).2 = []) /\
  forall bound,
    (intersectionLabel sm bound callback pt).1 <> SHADOW /\
    (intersectionLabel sm bound callback pt).2 = [].
Proof.
  intros Happend Hbodies Hmiss Hhit Hdot.
  assert (exists st,
            shadowLoop (sensor_pos_ sm) pt (vsub (sensor_pos_ sm) pt)
              (vdiv (vsub (sensor_pos_ sm) pt) (vlength (vsub (sensor_pos_ sm) pt)))
              callback (bodies_ sm) (mkShadowLoop OUTSIDE [] []) = st
            /\ sh_out st = OUTSIDE /\ sh_calls st = []) as (st & Hloop & Hout & Hcalls).
  { eexists. split; [reflexivity|].
    rewrite Hbodies, shadowLoop_misses by done. simpl. rewrite Hhit, Hdot. simpl.
    by apply (shadowLoop_stale _ _ _ _ _ _ (mkShadowLoop OUTSIDE (tmp :: others) [])
                tmp others). }
  pose proof (containsLoop_cases (fun b => containsPoint (body b) pt) (bodies_ sm))
    as Hscaled.
  split.
  - unfold getMaskIntersection.
    destruct (containsLoop_cases (fun b => containsPoint (unscaledBody b) pt) (bodies_ sm))
      as [-> | ->]; simpl; [done|].
    destruct (Qltb (vlength _) _); [done|]. simpl. rewrite Hloop, Hout, Hcalls.
    by destruct Hscaled as [-> | ->].
  - intros bound. unfold intersectionLabel.
    assert ((if Qltb (squaredNorm (vsub (center bound) pt)) (radius bound * radius bound)
             then containsLoop (fun b => containsPoint (unscaledBody b) pt)
                    (bodies_ sm) OUTSIDE
             else OUTSIDE) = INSIDE \/
            (if Qltb (squaredNorm (vsub (center bound) pt)) (radius bound * radius bound)
             then containsLoop (fun b => containsPoint (unscaledBody b) pt)
                    (bodies_ sm) OUTSIDE
             else OUTSIDE) = OUTSIDE) as [-> | ->]
      by (destruct (Qltb _ _); [apply containsLoop_cases|by right]); simpl; [done|].
    destruct (Qltb (vlength _) _); [done|]. simpl. rewrite Hloop, Hout, Hcalls. simpl.
    destruct (Qltb _ _); [|done]. by destruct Hscaled as [-> | ->].
Qed.

Lemma shadowLoop_no_hit sensor_pos pt dir_eigen dir callback bodies st :
  (forall b ints, b ∈ bodies -> (intersectsRay (body b) pt dir_eigen ints 1).1 = false) ->
  sh_out (shadowLoop sensor_pos pt dir_eigen dir callback bodies st) = sh_out st /\
  sh_calls (shadowLoop sensor_pos pt dir_eigen dir callback bodies st) = sh_calls st.
Proof.
  revert st. induction bodies as [|b rest IH]; intros st Hmiss; [done|]. simpl.
  destruct (Label_eqb (sh_out st) OUTSIDE); [|done].
  pose proof (Hmiss b (sh_intersections st) ltac:(left)) as Hb.
  destruct (intersectsRay (body b) pt dir_eigen (sh_intersections st) 1)
    as [hit intersections]. simpl in Hb. subst hit.
  apply (IH (mkShadowLoop (sh_out st) intersections (sh_calls st))).
  intros b' ints Hin. apply Hmiss. by right.
Qed.

(** X16.  When no ray test of any body reports a hit, [getMaskIntersection]
    calls nothing and answers INSIDE exactly when some unscaled body
    contains the point, or the point is closer to the sensor than the
    minimum distance, or some scaled body contains it; otherwise it answers
    OUTSIDE. *)
Theorem no_hit_no_shadow sm callback pt :
  (forall b ints, b ∈ bodies_ sm ->
     (intersectsRay (body b) pt (vsub (sensor_pos_ sm) pt) ints 1).1 = false) ->
  (getMaskIntersection sm callback pt).2 = [] /\
  ((getMaskIntersection sm callback pt).1 = INSIDE <->
   (exists b, b ∈ bodies_ sm /\ containsPoint (unscaledBody b) pt = true) \/
   (vlength (vsub (sensor_pos_ sm) pt) < min_sensor_dist_ sm)%Q \/
   (exists b, b ∈ bodies_ sm /\ containsPoint (body b) pt = true)) /\
  ((getMaskIntersection sm callback pt).1 = INSIDE \/
   (getMaskIntersection sm callback pt).1 = OUTSIDE).
Proof.
  intros Hmiss. unfold getMaskIntersection.
  rewrite <- !containsLoop_INSIDE, <- Qltb_lt.
  destruct (containsLoop_cases (fun b => containsPoint (unscaledBody b) pt) (bodies_ sm))
    as [-> | ->]; simpl.
  { split; [done|]. split; [|by left]. split; [by left|done]. }
  destruct (Qltb (vlength _) _); simpl.
  { split; [done|]. split; [|by left]. split; [by right; left|done]. }
  destruct (shadowLoop_no_hit (sensor_pos_ sm) pt (vsub (sensor_pos_ sm) pt)
              (vdiv (vsub (sensor_pos_ sm) pt) (vlength (vsub (sensor_pos_ sm) pt)))
              callback (bodies_ sm) (mkShadowLoop OUTSIDE [] []) Hmiss) as [-> ->].
  simpl. split; [done|]. split.
  - split; [by right; right|]. by intros [?|[?|?]].
  - apply containsLoop_cases.
Qed.

Lemma shadowLoop_SHADOW sensor_pos pt dir_eigen dir callback bodies st :
  sh_out st = OUTSIDE ->
  sh_out (shadowLoop sensor_pos pt dir_eigen dir callback bodies st) = SHADOW ->
  exists b ints tmp others,
    b ∈ bodies /\
    intersectsRay (body b) pt dir_eigen ints 1 = (true, tmp :: others) /\
    dot_nonneg dir (vsub sensor_pos tmp) = true /\
    sh_calls (shadowLoop sensor_pos pt dir_eigen dir callback bodies st)
    = sh_calls st ++ (if callback then [tmp] else []).
Proof.
  revert st. induction bodies as [|b rest IH]; intros st Hout Hshadow; simpl in *.
  { congruence. }
  rewrite Hout in *. simpl in *.
  assert (forall ints,
            sh_out (shadowLoop sensor_pos pt dir_eigen dir callback rest
                      (mkShadowLoop OUTSIDE ints (sh_calls st))) = SHADOW ->
            exists b0 ints0 tmp others,
              b0 ∈ b :: rest /\
              intersectsRay (body b0) pt dir_eigen ints0 1 = (true, tmp :: others) /\
              dot_nonneg dir (vsub sensor_pos tmp) = true /\
              sh_calls (shadowLoop sensor_pos pt dir_eigen dir callback rest
                          (mkShadowLoop OUTSIDE ints (sh_calls st)))
              = sh_calls st ++ (if callback then [tmp] else [])) as Hgo.
  { intros ints Hs.
    destruct (IH (mkShadowLoop OUTSIDE ints (sh_calls st)) eq_refl Hs)
      as (b0 & ints0 & tmp & others & Hin & Hray & Hdot & Hcalls).
    exists b0, ints0, tmp, others. split; [by right|done]. }
  destruct (intersectsRay (body b) pt dir_eigen (sh_intersections st) 1)
    as [hit intersections] eqn:Hray.
  destruct hit; [|by apply Hgo].
  destruct intersections as [|tmp others]; [by apply Hgo|].
  destruct (dot_nonneg dir (vsub sensor_pos tmp)) eqn:Hdot; [|by apply Hgo].
  exists b, (sh_intersections st), tmp, others.
  split; [left|]. split; [done|]. split; [done|].
  by rewrite shadowLoop_stops.
Qed.

(** X17.  [getMaskIntersection] answers SHADOW only for a point that no
    unscaled body contains and that is not closer to the sensor than the
    minimum distance, and only when the ray test of some body reported a hit
    whose first stored point passed the direction test; that point is the
    one the callback, if set, is called with, once. *)
Theorem SHADOW_needs_a_hit sm callback pt :
  (getMaskIntersection sm callback pt).1 = SHADOW ->
  (forall b, b ∈ bodies_ sm -> containsPoint (unscaledBody b) pt = false) /\
  (min_sensor_dist_ sm <= vlength (vsub (sensor_pos_ sm) pt))%Q /\
  exists b ints tmp others,
    b ∈ bodies_ sm /\
    intersectsRay (body b) pt (vsub (sensor_pos_ sm) pt) ints 1 = (true, tmp :: others) /\
    dot_nonneg (vdiv (vsub (sensor_pos_ sm) pt) (vlength (vsub (sensor_pos_ sm) pt)))
      (vsub (sensor_pos_ sm) tmp) = true /\
    (getMaskIntersection sm callback pt).2 = if callback then [tmp] else [].
Proof.
  unfold getMaskIntersection. rewrite <- containsLoop_OUTSIDE, <- Qltb_ge.
  destruct (containsLoop_cases (fun b => containsPoint (unscaledBody b) pt) (bodies_ sm))
    as [-> | ->]; simpl; [done|].
  destruct (Qltb (vlength _) _); simpl; [done|].
  intros Hshadow. split; [done|]. split; [done|].
  assert (sh_out (shadowLoop (sensor_pos_ sm) pt (vsub (sensor_pos_ sm) pt)
                    (vdiv (vsub (sensor_pos_ sm) pt) (vlength (vsub (sensor_pos_ sm) pt)))
                    callback (bodies_ sm) (mkShadowLoop OUTSIDE [] [])) = SHADOW) as Hout.
  { destruct (sh_out _) eqn:Ho; [by rewrite containsLoop_not_OUTSIDE in Hshadow| |done].
    by destruct (containsLoop_cases (fun b => containsPoint (body b) pt) (bodies_ sm))
      as [Hc | Hc]; rewrite Hc in Hshadow. }
  destruct (shadowLoop_SHADOW _ _ _ _ callback _ (mkShadowLoop OUTSIDE [] []) eq_refl Hout)
    as (b & ints & tmp & others & Hin & Hray & Hdot & Hcalls).
  exists b, ints, tmp, others. by rewrite Hcalls.
Qed.

(** X18.  On an object without bodies [getMaskContainment] answers OUTSIDE,
    and [getMaskIntersection] answers INSIDE for a point closer to the
    sensor than the minimum distance and OUTSIDE for every other point,
    without any call.  (The batch functions label every point OUTSIDE on
    such an object, also those close to the sensor.) *)
Theorem single_point_without_bodies sm callback pt :
  bodies_ sm = [] ->
  getMaskContainment sm pt = OUTSIDE /\
  getMaskIntersection sm callback pt
  = (if Qltb (vlength (vsub (sensor_pos_ sm) pt)) (min_sensor_dist_ sm)
     then INSIDE else OUTSIDE, []).
Proof.
  intros Hb. unfold getMaskContainment, getMaskIntersection. rewrite Hb. simpl.
  by destruct (Qltb _ _).
Qed.

(** ** More on configuration *)

(** X19.  [constructShape] gives a shape and logs nothing for every sphere,
    box and cylinder.  It gives no shape exactly for a mesh without file
    name, a mesh whose resource cannot be loaded, and a geometry of unknown
    type; it logs at most one message, and only when it gives no shape. *)
Theorem constructShape_spec geom :
  ((constructShape geom).1 = None <->
   match geom with
   | urdf_Mesh filename scale =>
       filename = "" \/ createMeshFromResource filename scale = None
   | urdf_Unknown _ => True
   | _ => False
   end) /\
  ((constructShape geom).2 <> [] -> (constructShape geom).1 = None) /\
  length (constructShape geom).2 <= 1.
Proof.
  destruct geom as [r|dim|r l|filename scale|ty]; simpl;
    try (split; [split; [done|by intros []]|split; [done|lia]]).
  - case_bool_decide as Hname; simpl.
    + split; [split; [by left|done]|split; [done|lia]].
    + split; [|split; [done|lia]]. split; [by right|]. by intros [?|?].
Qed.

Lemma constructShape_no_linkFailures geom : linkFailures (constructShape geom).2 = [].
Proof. destruct geom; simpl; try done. by destruct (bool_decide _). Qed.

Lemma linkFailures_app l1 l2 : linkFailures (l1 ++ l2) = linkFailures l1 ++ linkFailures l2.
Proof. apply omap_app. Qed.

Lemma configure_link_failures urdfModel st li :
  linkFailures (cl_log (configure_link urdfModel st li))
  = linkFailures (cl_log st)
    ++ (if knownUnbuilt urdfModel li then [li_name li] else []).
Proof.
  unfold configure_link, knownUnbuilt, buildLink.
  destruct (getLink urdfModel (li_name li)) as [link|]; simpl; [|by rewrite app_nil_r].
  destruct (collision link) as [[[geom|] orig]|]; simpl;
    try by rewrite linkFailures_app.
  pose proof (constructShape_no_linkFailures geom) as Hm.
  destruct (constructShape geom) as [[shape|] msgs]; simpl in *.
  - destruct (createBodyFromShape shape) as [b|]; simpl.
    + by rewrite linkFailures_app, Hm.
    + rewrite !linkFailures_app, Hm. done.
  - rewrite !linkFailures_app, Hm. done.
Qed.

Lemma configure_loop_failures urdfModel links st :
  linkFailures (cl_log (foldl (configure_link urdfModel) st links))
  = linkFailures (cl_log st)
    ++ (li_name <$> filter (fun li => knownUnbuilt urdfModel li = true) links).
Proof.
  revert st. induction links as [|li links IH]; intros st; simpl.
  - by rewrite app_nil_r.
  - rewrite IH, configure_link_failures, filter_cons, <- app_assoc.
    by destruct (knownUnbuilt urdfModel li).
Qed.

Lemma links_partition urdfModel links :
  length links
  = length (omap (buildLink urdfModel) links)
    + length (unknownLinks urdfModel links)
    + length (filter (fun li => knownUnbuilt urdfModel li = true) links).
Proof.
  unfold unknownLinks. rewrite length_fmap.
  induction links as [|li links IH]; [done|].
  assert ((getLink urdfModel (li_name li) = None /\ buildLink urdfModel li = None
           /\ knownUnbuilt urdfModel li = false) \/
          (getLink urdfModel (li_name li) <> None /\ is_Some (buildLink urdfModel li)
           /\ knownUnbuilt urdfModel li = false) \/
          (getLink urdfModel (li_name li) <> None /\ buildLink urdfModel li = None
           /\ knownUnbuilt urdfModel li = true)) as Hcases.
  { unfold knownUnbuilt.
    destruct (getLink urdfModel (li_name li)) as [link|] eqn:Hl.
    - right. destruct (buildLink urdfModel li); [left|right]; by eauto.
    - left. split; [done|]. split; [|done]. unfold buildLink. by rewrite Hl. }
  rewrite !filter_cons. csimpl.
  destruct Hcases as [(Hg & Hb & Hk) | [(Hg & [sl Hb] & Hk) | (Hg & Hb & Hk)]];
    rewrite Hb.
  - rewrite decide_True by done. rewrite decide_False by (by rewrite Hk). csimpl. lia.
  - rewrite decide_False by done. rewrite decide_False by (by rewrite Hk). csimpl. lia.
  - rewrite decide_False by done. rewrite decide_True by done. csimpl. lia.
Qed.

(** X20.  No entry of [links] is dropped silently.  With a robot model,
    the console names, in input order and once per entry, exactly the known
    links that got no body (no collision geometry, no shape, no body); and
    every entry is accounted for once: as a body, as an unknown name, or as
    one of these failures. *)
Theorem configure_accounts_for_every_link (laws : ExternalsLaws E) nh_ links sm urdfModel :
  robotModel nh_ = Some urdfModel ->
  linkFailures (configure nh_ links sm).2
    = li_name <$> filter (fun li => knownUnbuilt urdfModel li = true) links /\
  length links
    = length (bodies_ (configure nh_ links sm).1.2)
      + length (unknownLinks urdfModel links)
      + length (linkFailures (configure nh_ links sm).2).
Proof.
  intros Hm. rewrite (configure_with_model _ _ _ _ Hm). simpl.
  assert (linkFailures
            ((if bool_decide (0 < String.length (cl_missing (configure_links urdfModel links)))
              then cl_log (configure_links urdfModel links)
                   ++ [WarnMissingLinks (cl_missing (configure_links urdfModel links))]
              else cl_log (configure_links urdfModel links))
             ++ match cl_bodies (configure_links urdfModel links) with
                | [] => [WarnNoLinks]
                | _ :: _ => []
                end)
          = li_name <$> filter (fun li => knownUnbuilt urdfModel li = true) links) as ->.
  { rewrite linkFailures_app.
    assert (forall (c : bool) l m,
              linkFailures (if c then l ++ [WarnMissingLinks m] else l) = linkFailures l)
      as -> by (intros [] l m; [rewrite linkFailures_app; simpl; apply app_nil_r|done]).
    unfold configure_links. rewrite configure_loop_failures. simpl.
    destruct (cl_bodies _); simpl; by rewrite app_nil_r. }
  split; [done|].
  rewrite (Permutation_length (std_sort_perm E laws _ SortBodies _)).
  destruct (configure_links_spec urdfModel links) as (-> & _ & _).
  rewrite length_fmap. apply links_partition.
Qed.

(** X21.  With a robot model, [configure] warns that no robot links will be
    checked exactly when it leaves no body. *)
Theorem no_links_warning (laws : ExternalsLaws E) nh_ links sm urdfModel :
  robotModel nh_ = Some urdfModel ->
  WarnNoLinks ∈ (configure nh_ links sm).2 <-> bodies_ (configure nh_ links sm).1.2 = [].
Proof.
  intros Hm. rewrite (configure_with_model _ _ _ _ Hm). simpl.
  assert (Forall (fun m => m <> WarnNoLinks) (cl_log (configure_links urdfModel links)))
    as Hnot.
  { unfold configure_links.
    assert (forall st, Forall (fun m => m <> WarnNoLinks) (cl_log st) ->
              Forall (fun m => m <> WarnNoLinks)
                (cl_log (foldl (configure_link urdfModel) st links))) as Hloop.
    { induction links as [|li rest IH]; intros st Hst; [done|]. simpl. apply IH.
      unfold configure_link.
      destruct (getLink urdfModel (li_name li)) as [link|]; [|done].
      destruct (collision link) as [[[geom|] orig]|]; simpl;
        try (apply Forall_app; split; [done|by repeat constructor]).
      assert (Forall (fun m => m <> WarnNoLinks) (constructShape geom).2) as Hshape
        by (destruct geom; simpl; try case_bool_decide; by repeat constructor).
      destruct (constructShape geom) as [[shape|] msgs]; simpl in *.
      - destruct (createBodyFromShape shape); simpl;
          rewrite ?Forall_app; repeat split; try done; by repeat constructor.
      - rewrite ?Forall_app; repeat split; try done; by repeat constructor. }
    apply Hloop. simpl. constructor. }
  rewrite Forall_forall in Hnot.
  assert (std_sort SortBodies (cl_bodies (configure_links urdfModel links)) = []
          <-> cl_bodies (configure_links urdfModel links) = []) as ->.
  { pose proof (std_sort_perm E laws _ SortBodies
                  (cl_bodies (configure_links urdfModel links))) as Hperm.
    split; intros Hnil; rewrite Hnil in Hperm.
    - symmetry in Hperm. by apply Permutation_nil_r in Hperm.
    - rewrite Hnil. by apply Permutation_nil_r. }
  destruct (cl_bodies (configure_links urdfModel links)) as [|sl rest].
  - split; [done|]. intros _. apply elem_of_app. right. left.
  - split; [|done]. rewrite app_nil_r. intros Hin.
    destruct (bool_decide _); [apply elem_of_app in Hin as [Hin|Hin]|].
    + by destruct (Hnot _ Hin).
    + by apply list_elem_of_singleton in Hin.
    + by destruct (Hnot _ Hin).
Qed.

End Properties.

(** * The world of boxes meets the contracts *)

Module BoxesFacts.
Import Boxes.

Lemma insert_by_perm {A} (skip : A -> A -> bool) x l : insert_by skip x l ≡ₚ x :: l.
Proof.
  induction l as [|y l IH]; simpl; [done|].
  destruct (skip x y); [|done]. rewrite IH. apply Permutation_swap.
Qed.

Lemma insertion_sort_perm {A} (skip : A -> A -> bool) l : insertion_sort skip l ≡ₚ l.
Proof.
  induction l as [|x l IH]; simpl; [done|].
  unfold insertion_sort in *. by rewrite insert_by_perm, IH.
Qed.

Section Sorted.
Context {A : Type} (comp skip : A -> A -> bool).
Hypothesis comp_swo : StrictWeakOrder comp.
Hypothesis skip_after : forall x y, skip x y = true -> comp x y = false.
Hypothesis stop_before : forall x y, skip x y = false -> comp y x = false.

Lemma insert_by_sorted x l :
  StronglySorted (fun a b => comp b a = false) l ->
  StronglySorted (fun a b => comp b a = false) (insert_by skip x l).
Proof using comp_swo skip_after stop_before.
  induction 1 as [|y l Hs IH Hall]; simpl.
  - repeat constructor.
  - destruct (skip x y) eqn:Hskip.
    + constructor; [done|]. rewrite insert_by_perm. constructor; [|done].
      by apply skip_after.
    + apply stop_before in Hskip. constructor; [by constructor|].
      constructor; [done|]. eapply Forall_impl; [exact Hall|].
      intros z Hz. simpl in Hz. by apply (swo_negtrans comp comp_swo z y x).
Qed.

Lemma insertion_sort_sorted l :
  StronglySorted (fun a b => comp b a = false) (insertion_sort skip l).
Proof using comp_swo skip_after stop_before.
  induction l as [|x l IH]; simpl; [constructor|]. by apply insert_by_sorted.
Qed.

End Sorted.

Lemma StrictWeakOrder_asym {A} (comp : A -> A -> bool) x y :
  StrictWeakOrder comp -> comp x y = true -> comp y x = false.
Proof.
  intros Hswo Hxy. destruct (comp y x) eqn:Hyx; [|done].
  by rewrite <- (swo_irrefl comp Hswo x), (swo_trans comp Hswo x y x).
Qed.

Lemma sort_keeping_ties_sorted {A} (comp : A -> A -> bool) l :
  StrictWeakOrder comp ->
  StronglySorted (fun a b => comp b a = false) (sort_keeping_ties comp l).
Proof.
  intros Hswo. apply insertion_sort_sorted; [done| |done].
  intros x y. by apply StrictWeakOrder_asym.
Qed.

Lemma boxIntersectsRay_stored b o d ints n :
  (boxIntersectsRay b o d ints n).1 = true -> (boxIntersectsRay b o d ints n).2 <> [].
Proof.
  unfold boxIntersectsRay. destruct (boxRay b o d) as [t|]; simpl; [|done].
  intros _ Hnil. apply app_eq_nil in Hnil as [_ Hnil].
  unfold boxRayPoints in Hnil. by destruct (Qltb ZERO _).
Qed.

Lemma world_laws parse : ExternalsLaws (world parse (@sort_keeping_ties)).
Proof.
  split.
  - apply boxIntersectsRay_stored.
  - intros A comp l. apply insertion_sort_perm.
  - intros A comp l Hswo. by apply sort_keeping_ties_sorted.
Qed.

End BoxesFacts.

Lemma boxWorld_laws : ExternalsLaws boxWorld.
Proof. apply BoxesFacts.world_laws. Qed.

Lemma boxWorld_raysAppend : @raysAppend boxWorld.
Proof.
  intros b o d ints n. simpl. unfold Boxes.boxIntersectsRay.
  destruct (Boxes.boxRay b o d) as [h|]; simpl.
  - by exists (Boxes.boxRayPoints o d h n).
  - exists []. by rewrite app_nil_r.
Qed.

(** * Runs in the world of boxes *)

Example head_bounding_sphere :
  bspheres_ head_posed = [mkBoundingSphere vzero 3]
  /\ mergeBoundingSpheres (bspheres_ head_posed) = mkBoundingSphere vzero 3.
Proof. by vm_compute. Qed.

Example head_containment_run :
  r_mask (maskContainment tf_still head_only head_cloud [])
  = [OUTSIDE; INSIDE; OUTSIDE; OUTSIDE].
Proof. by vm_compute. Qed.

Example head_intersection_run :
  let r := maskIntersection_pos tf_still head_only head_cloud sensor_behind (1 # 10) [] true in
  r_mask r = [SHADOW; INSIDE; INSIDE; SHADOW]
  /\ r_calls r = [corner; mkVec3 2 (-2) (-1)].
Proof. by vm_compute. Qed.

Example arm_alone_shadows :
  let r := maskIntersection_pos tf_apart arm_only far_cloud sensor_between (1 # 10) [] true in
  r_mask r = [SHADOW] /\ r_calls r = [mkVec3 (-1) 0 0].
Proof. by vm_compute. Qed.

(** ** The shadow loop *)

(** C2, at an input where the code departs from it.  The torso (larger
    volume, tested first) is hit by the ray beyond the sensor, so its point
    fails the direction test; the arm is hit between the point and the
    sensor, at (-1,0,0), and that point passes the test.  The ray test of
    the arm appends its point behind the one of the torso, the loop reads
    [intersections[0]] again, and the point is labelled OUTSIDE without any
    call of the callback. *)
Theorem stale_intersection_hides_shadow :
  let posed :=
    (assumeFrame_pos tf_apart "base" 0%Z sensor_between (1 # 10) arm_and_torso).1 in
  let dir_eigen := vsub sensor_between far_point in
  let dir := vdiv dir_eigen (vlength dir_eigen) in
  let r := maskIntersection_pos tf_apart arm_and_torso far_cloud
             sensor_between (1 # 10) [] true in
  name <$> bodies_ posed = ["torso"; "arm"]
  /\ (forall sl, sl ∈ bodies_ posed -> containsPoint (unscaledBody sl) far_point = false)
  /\ (1 # 10 <= vlength dir_eigen)%Q
  /\ (exists arm, bodies_ posed !! 1 = Some arm
        /\ intersectsRay (body arm) far_point dir_eigen [] 1 = (true, [mkVec3 (-1) 0 0])
        /\ dot_nonneg dir (vsub sensor_between (mkVec3 (-1) 0 0)) = true)
  /\ r_mask r = [OUTSIDE]
  /\ r_calls r = []
  /\ getMaskIntersection posed true far_point = (OUTSIDE, []).
Proof.
  split; [by vm_compute|]. split.
  { apply Forall_forall, (bool_decide_unpack _). by vm_compute. }
  split; [by vm_compute|]. split; [|by vm_compute].
  exists (@placed boxWorld vzero
            (@mkSeeLink boxWorld "arm" (Boxes.mkBoxBody (mkVec3 2 4 4) 1 0 vzero)
               (Boxes.mkBoxBody (mkVec3 2 4 4) 1 0 vzero) vzero (256 # 8))).
  split; [reflexivity|]. by vm_compute.
Qed.

(** ** Points on the merged sphere *)

(** C1, at an input where the code departs from it.  The corner (2,2,1) of
    the head is contained in the unscaled body, at scale 1 and without
    padding, and [getMaskIntersection] labels it INSIDE.  In
    [maskAuxIntersection] the test of the unscaled bodies, commented "if it
    is, the point is definitely inside", sits behind the guard
    [diff.squaredNorm() < radiusSquared]; the corner lies on the merged
    bounding sphere, 9 < 9 fails, the test is skipped, the ray test of the
    head stores the corner itself, and the corner is labelled SHADOW, with a
    call of the callback. *)
Theorem surface_point_labelled_SHADOW :
  let bound := mergeBoundingSpheres (bspheres_ head_posed) in
  let r := maskIntersection_pos tf_still head_only head_cloud sensor_behind (1 # 10) [] true in
  (exists sl, sl ∈ bodies_ head_posed /\ containsPoint (unscaledBody sl) corner = true)
  /\ points head_cloud !! 0 = Some corner
  /\ (squaredNorm (vsub (center bound) corner) == 9)%Q
  /\ (radius bound * radius bound == 9)%Q
  /\ (getMaskIntersection head_posed true corner).1 = INSIDE
  /\ b_mask (maskAuxIntersection head_posed head_cloud mask4 true) !! 0 = Some SHADOW
  /\ r_mask r !! 0 = Some SHADOW
  /\ r_calls r !! 0 = Some corner.
Proof.
  split; [|by vm_compute].
  apply Exists_exists, (bool_decide_unpack _). by vm_compute.
Qed.

Lemma unscaled_containment_is_INSIDE_witness :
  getMaskIntersection head_posed true vzero = (INSIDE, [])
  /\ b_mask (maskAuxIntersection head_posed head_cloud mask4 true) !! 1 = Some INSIDE.
Proof.
  destruct (unscaled_containment_is_INSIDE head_posed head_cloud mask4 true 1 vzero
              eq_refl eq_refl) as [Hsingle Hbatch].
  - apply Exists_exists, (bool_decide_unpack _). by vm_compute.
  - split; [exact Hsingle|]. apply Hbatch. by vm_compute.
Defined.

Lemma standoff_is_INSIDE_witness :
  getMaskIntersection head_posed true (mkVec3 (-199 # 20) (-10) (-5)) = (INSIDE, [])
  /\ b_mask (maskAuxIntersection head_posed head_cloud mask4 true) !! 2 = Some INSIDE.
Proof.
  destruct (standoff_is_INSIDE head_posed head_cloud mask4 true 2
              (mkVec3 (-199 # 20) (-10) (-5)) eq_refl eq_refl) as (Hsingle & _ & Hbatch).
  - apply Forall_forall, (bool_decide_unpack _). by vm_compute.
  - by vm_compute.
  - by split.
Defined.

(** C3, at an input where the code departs from it.  The squared distance
    of the corner to the center of the merged sphere is 9, the squared
    radius, and does not exceed it; the scaled head contains the corner and
    [getMaskContainment] answers INSIDE; [maskAuxContainment], whose guard
    [diff.squaredNorm() < radiusSquared] asks for strictly less, labels the
    corner OUTSIDE without testing the head. *)
Theorem corner_rejected_by_merged_sphere :
  let bound := mergeBoundingSpheres (bspheres_ head_posed) in
  (squaredNorm (vsub corner (center bound)) == radius bound * radius bound)%Q
  /\ (exists sl, sl ∈ bodies_ head_posed /\ containsPoint (body sl) corner = true)
  /\ points head_cloud !! 0 = Some corner
  /\ getMaskContainment head_posed corner = INSIDE
  /\ maskAuxContainment head_posed head_cloud mask4 !! 0 = Some OUTSIDE
  /\ r_mask (maskContainment tf_still head_only head_cloud []) !! 0 = Some OUTSIDE.
Proof.
  split; [by vm_compute|]. split; [|by vm_compute].
  apply Exists_exists, (bool_decide_unpack _). by vm_compute.
Qed.

Lemma containment_label_witness :
  maskAuxContainment head_posed head_cloud mask4 !! 3 = Some OUTSIDE
  /\ maskAuxContainment head_posed head_cloud mask4 !! 1 = Some INSIDE.
Proof.
  split.
  - apply (containment_label head_posed head_cloud mask4 3 (mkVec3 5 0 0) eq_refl eq_refl).
    by vm_compute.
  - destruct (containment_label head_posed head_cloud mask4 1 vzero eq_refl eq_refl)
      as [_ Hinside].
    apply Hinside; [by vm_compute|].
    apply Exists_exists, (bool_decide_unpack _). by vm_compute.
Defined.

(** C9, at an input where the code departs from it.  For the corner of
    the head, on the merged bounding sphere, the single-point queries and
    the batch loops disagree: [getMaskContainment] answers INSIDE where
    [maskAuxContainment] stores OUTSIDE, and [getMaskIntersection] answers
    INSIDE without a call where [maskAuxIntersection] stores SHADOW and
    calls the callback with the corner.  The batch loops skip their
    containment tests behind the guard [diff.squaredNorm() < radiusSquared],
    which the single-point queries do not have. *)
Theorem single_point_differs_on_merged_sphere :
  points head_cloud !! 0 = Some corner
  /\ getMaskContainment head_posed corner = INSIDE
  /\ maskAuxContainment head_posed head_cloud mask4 !! 0 = Some OUTSIDE
  /\ getMaskIntersection head_posed true corner = (INSIDE, [])
  /\ intersectionLabel head_posed (mergeBoundingSpheres (bspheres_ head_posed)) true corner
     = (SHADOW, [corner])
  /\ b_mask (maskAuxIntersection head_posed head_cloud mask4 true) !! 0 = Some SHADOW.
Proof. by vm_compute. Qed.

Lemma single_point_agrees_with_batch_witness :
  maskAuxContainment head_posed head_cloud mask4 !! 1 = Some (getMaskContainment head_posed vzero)
  /\ intersectionLabel head_posed (mergeBoundingSpheres (bspheres_ head_posed)) true
       (mkVec3 5 0 0)
     = getMaskIntersection head_posed true (mkVec3 5 0 0)
  /\ getMaskIntersection head_posed true (mkVec3 5 0 0) = (SHADOW, [mkVec3 2 (-2) (-1)]).
Proof.
  split; [|split; [|by vm_compute]].
  - apply (single_point_agrees_with_batch head_posed head_cloud mask4 true 1 vzero
             eq_refl eq_refl).
    left. by vm_compute.
  - apply (single_point_agrees_with_batch head_posed head_cloud mask4 true 3 (mkVec3 5 0 0)
             eq_refl eq_refl).
    right. apply Forall_forall, (bool_decide_unpack _). by vm_compute.
Defined.

(** ** Batches without a sensor frame, masks without bodies *)

Lemma empty_sensor_frame_is_containment_only_witness :
  let r := maskIntersection_frame tf_still head_only head_cloud "" (1 # 10) [] true in
  r_calls r = [] /\ r_mask r = [OUTSIDE; INSIDE; OUTSIDE; OUTSIDE].
Proof.
  destruct (empty_sensor_frame_is_containment_only tf_still head_only head_cloud
              (1 # 10) [] true) as (Hcalls & Hmask & _).
  - intros Hnil. apply (f_equal length) in Hnil. vm_compute in Hnil. discriminate Hnil.
  - split; [exact Hcalls|]. rewrite Hmask. by vm_compute.
Defined.

Lemma configure_nil_then_all_OUTSIDE_witness :
  let sm := (configure nh_robot [] fresh).1.2 in
  (configure nh_robot [] fresh).1.1 = true
  /\ getLinkNames sm [] = []
  /\ r_mask (maskIntersection_pos tf_still sm head_cloud sensor_behind (1 # 10) [] true)
     = [OUTSIDE; OUTSIDE; OUTSIDE; OUTSIDE].
Proof.
  intros sm. subst sm.
  destruct (configure_nil_then_all_OUTSIDE boxWorld_laws
              nh_robot fresh "<robot/>" robot eq_refl eq_refl)
    as (Hok & Hnames & Hall).
  split; [exact Hok|]. split; [exact Hnames|].
  destruct (Hall tf_still head_cloud [] true "" sensor_behind (1 # 10)%Q) as (_ & _ & Hpos).
  by rewrite Hpos.
Defined.

(** ** Frame updates *)

(** C8 does not hold for a timeout alone.  [waitForTransform] times out for
    the head and the error is logged, the lookup that follows returns the
    shift by one along x, and that transform, not the identity, becomes the
    pose of the head. *)
Lemma timeout_keeps_looked_up_pose :
  let r := assumeFrame tf_late "base" 0%Z head_only in
  bodies_ head_only !! 0 = Some head_link
  /\ waitForTransform tf_late "base" (name head_link) 0%Z = false
  /\ r.2 = [ErrorWaitForTransform "head" "base"]
  /\ bodies_ r.1 !! 0 = Some (@placed boxWorld (mkVec3 1 0 0) head_link)
  /\ bodies_ r.1 !! 0 <> Some (placed tf_identity head_link).
Proof.
  split; [reflexivity|]. do 2 (split; [by vm_compute|]). split; [reflexivity|].
  intros H. apply (f_equal (fmap body)) in H. vm_compute in H. discriminate H.
Qed.

Lemma assumeFrame_places_every_link_witness :
  let r := assumeFrame tf_partial "base" 0%Z three_links in
  getLinkNames three_links [] = ["torso"; "arm"; "hand"]
  /\ (fun sl => Boxes.center_ (body sl)) <$> bodies_ three_links
     = [mkVec3 1 0 0; mkVec3 1 0 0; mkVec3 1 0 3]
  /\ bodies_ r.1 !! 2 = Some (placed tf_identity hand_link)
  /\ Boxes.center_ (body (placed tf_identity hand_link)) = mkVec3 0 0 3
  /\ ErrorLookupTransform "hand" "base" ∈ r.2
  /\ ErrorWaitForTransform "hand" "base" ∈ r.2
  /\ (Boxes.center_ ∘ body) <$> bodies_ r.1 !! 0 = Some (mkVec3 20 0 0)
  /\ (Boxes.center_ ∘ body) <$> bodies_ r.1 !! 1 = Some (mkVec3 0 5 0)
  /\ bspheres_ r.1
     = [mkBoundingSphere (mkVec3 20 0 0) 6; mkBoundingSphere (mkVec3 0 5 0) 3;
        mkBoundingSphere (mkVec3 0 0 3) 1].
Proof.
  intros r.
  destruct (assumeFrame_places_every_link tf_partial "base" 0%Z three_links 2 hand_link
              eq_refl eq_refl eq_refl) as (Hthrow & _ & Hwait & Hothers & _ & Hspheres & _).
  destruct (Hthrow eq_refl) as [Hhand Hlog].
  split; [by vm_compute|]. split; [by vm_compute|]. split; [exact Hhand|].
  split; [by vm_compute|]. split; [exact Hlog|]. split; [exact (Hwait eq_refl)|].
  pose proof (Hothers 0
    (@mkSeeLink boxWorld "torso" (Boxes.mkBoxBody (mkVec3 8 8 4) 1 0 (mkVec3 1 0 0))
       (Boxes.mkBoxBody (mkVec3 8 8 4) 1 0 (mkVec3 1 0 0)) vzero (2048 # 8))
    ltac:(lia) eq_refl) as Htorso.
  pose proof (Hothers 1
    (@mkSeeLink boxWorld "arm" (Boxes.mkBoxBody (mkVec3 2 4 4) 1 0 (mkVec3 1 0 0))
       (Boxes.mkBoxBody (mkVec3 2 4 4) 1 0 (mkVec3 1 0 0)) vzero (256 # 8))
    ltac:(lia) eq_refl) as Harm.
  split; [unfold r; rewrite Htorso; by vm_compute|].
  split; [unfold r; rewrite Harm; by vm_compute|].
  unfold r. rewrite Hspheres. by vm_compute.
Defined.

(** ** Configuration *)

(** C5 does not hold for ties.  The seventeen segments of the snake have
    the same volume.  [std::sort] partitions a vector of more than sixteen
    elements around the median of three and swaps elements of equal volume
    across the pivot on the way: the segments come out in another order than
    they were listed in, "i" first and "a" in tenth place.  (Up to sixteen
    bodies the same sort leaves bodies of equal volume in place.) *)
Lemma equal_volumes_change_places :
  let built := omap (@buildLink boxWorld_libstdcxx snake) snake_links in
  let sm' := (configure nh_snake snake_links fresh_libstdcxx).1.2 in
  name <$> built = segments
  /\ volume <$> built = replicate 17 (256 # 8)%Q
  /\ name <$> bodies_ sm'
     = ["i"; "q"; "p"; "o"; "n"; "m"; "l"; "k"; "j"; "a"; "h"; "g"; "f"; "e"; "d"; "c"; "b"]
  /\ name <$> bodies_ (configure nh_robot head_then_arm fresh_libstdcxx).1.2
     = ["head"; "arm"].
Proof. by vm_compute. Qed.

Lemma configure_sorts_by_volume_witness :
  let sm' := (configure nh_robot [mkLinkInfo "arm" 0 1; mkLinkInfo "torso" 0 1] fresh).1.2 in
  StronglySorted (fun a b => (volume b <= volume a)%Q) (bodies_ sm')
  /\ name <$> bodies_ sm' = ["torso"; "arm"].
Proof.
  destruct (configure_sorts_by_volume boxWorld_laws nh_robot
              [mkLinkInfo "arm" 0 1; mkLinkInfo "torso" 0 1] fresh robot eq_refl)
    as (Hsorted & _ & _).
  split; [exact Hsorted|]. by vm_compute.
Defined.

Lemma configure_fails_only_without_model_witness :
  (configure nh_robot mixed_links fresh).1.1 = true
  /\ missingWarnings (configure nh_robot mixed_links fresh).2 = [" gripper antenna"]
  /\ (configure nh_empty mixed_links fresh).1.1 = false.
Proof.
  destruct (configure_fails_only_without_model boxWorld_laws nh_robot mixed_links fresh)
    as [_ Hmodel].
  destruct (Hmodel robot eq_refl) as (Hok & _ & Hmissing).
  split; [exact Hok|]. split; [rewrite Hmissing; by vm_compute|].
  by apply (configure_fails_only_without_model boxWorld_laws nh_empty mixed_links fresh).
Defined.

Example configure_skips_failing_links :
  let r := configure nh_robot mixed_links fresh in
  r.1.1 = true
  /\ getLinkNames r.1.2 [] = ["torso"; "arm"]
  /\ r.2 = [WarnCreateBody "wheel"; WarnNoCollisionGeometry "frame";
            WarnMissingLinks " gripper antenna"].
Proof. by vm_compute. Qed.

Example configure_without_robot_description :
  let r := configure nh_empty [mkLinkInfo "arm" 0 1] arm_and_torso in
  r.1.1 = false /\ getLinkNames r.1.2 [] = [] /\ r.2 = [ErrorModelNotFound].
Proof. by vm_compute. Qed.

Example configure_only_failing_links :
  let r := configure nh_robot [mkLinkInfo "wheel" 0 1; mkLinkInfo "gripper" 0 1] fresh in
  r.1.1 = true /\ getLinkNames r.1.2 [] = []
  /\ r.2 = [WarnCreateBody "wheel"; WarnMissingLinks " gripper"; WarnNoLinks].
Proof. by vm_compute. Qed.

(** ** Further runs *)

Lemma boxWorld_ray_flag (b : Boxes.BoxBody) o d ints n :
  (@intersectsRay boxWorld b o d ints n).1 = (@intersectsRay boxWorld b o d [] n).1.
Proof. simpl. unfold Boxes.boxIntersectsRay. by destruct (Boxes.boxRay b o d). Qed.

Lemma configure_failure_frees_bodies_witness :
  getLinkNames arm_and_torso [] = ["torso"; "arm"]
  /\ (configure nh_empty mixed_links arm_and_torso).1.1 = false
  /\ getLinkNames (configure nh_empty mixed_links arm_and_torso).1.2 [] = []
  /\ (configure nh_empty mixed_links arm_and_torso).2 = [ErrorModelNotFound].
Proof.
  split; [by vm_compute|].
  by rewrite (configure_failure_frees_bodies nh_empty mixed_links arm_and_torso eq_refl).
Defined.

Lemma configure_one_sphere_per_body_witness :
  sized (configure nh_robot mixed_links fresh).1.2.
Proof. apply configure_one_sphere_per_body. by vm_compute. Defined.

Lemma frame_update_keeps_sizes_witness :
  sized (assumeFrame tf_late "base" 0%Z head_only).1
  /\ sized (assumeFrame_pos tf_late "base" 0%Z sensor_behind (1 # 10) head_only).1
  /\ sized (assumeFrame_frame tf_late "base" 0%Z "camera" (1 # 10) head_only).1.
Proof.
  apply frame_update_keeps_sizes. split; by vm_compute.
Defined.

Example frame_update_sensor_run :
  sensor_pos_ (assumeFrame_frame tf_late "base" 0%Z "camera" (1 # 10) head_only).1
    = mkVec3 1 0 0
  /\ sensor_pos_ (assumeFrame_frame tf_apart "base" 0%Z "camera" (1 # 10) head_only).1
      = vzero
  /\ (assumeFrame_frame tf_apart "base" 0%Z "camera" (1 # 10) head_only).2
      = [ErrorWaitForTransform "head" "base"; ErrorLookupTransform "head" "base";
         ErrorWaitForTransform "camera" "base"; ErrorLookupTransform "camera" "base"].
Proof. by vm_compute. Qed.

Lemma first_hit_shadows_witness :
  getMaskIntersection arm_posed true far_point = (SHADOW, [mkVec3 (-1) 0 0])
  /\ intersectionLabel arm_posed (mergeBoundingSpheres (bspheres_ arm_posed)) false far_point
     = (SHADOW, []).
Proof.
  assert (bodies_ arm_posed = [] ++ arm_link :: []) as Hbodies by reflexivity.
  assert (forall b, b ∈ bodies_ arm_posed -> containsPoint (unscaledBody b) far_point = false)
    as Hunscaled by (apply Forall_forall, (bool_decide_unpack _); by vm_compute).
  assert (min_sensor_dist_ arm_posed <= vlength (vsub (sensor_pos_ arm_posed) far_point))%Q
    as Hfar by by vm_compute.
  assert (forall b : SeeLink, b ∈ [] ->
            intersectsRay (body b) far_point (vsub (sensor_pos_ arm_posed) far_point) [] 1
            = (false, [])) as Hmiss by (intros b Hin; by apply elem_of_nil in Hin).
  assert (intersectsRay (body arm_link) far_point (vsub (sensor_pos_ arm_posed) far_point) [] 1
          = (true, [mkVec3 (-1) 0 0])) as Hhit by by vm_compute.
  assert (dot_nonneg
            (vdiv (vsub (sensor_pos_ arm_posed) far_point)
               (vlength (vsub (sensor_pos_ arm_posed) far_point)))
            (vsub (sensor_pos_ arm_posed) (mkVec3 (-1) 0 0)) = true) as Hdot by by vm_compute.
  split.
  - apply (first_hit_shadows arm_posed true far_point [] arm_link [] (mkVec3 (-1) 0 0) []
             Hbodies Hunscaled Hfar Hmiss Hhit Hdot).
  - apply (first_hit_shadows arm_posed false far_point [] arm_link [] (mkVec3 (-1) 0 0) []
             Hbodies Hunscaled Hfar Hmiss Hhit Hdot).
Defined.

Lemma first_hit_beyond_sensor_blocks_shadow_witness :
  (getMaskIntersection apart_posed true far_point).1 <> SHADOW
  /\ (getMaskIntersection apart_posed true far_point).2 = [].
Proof.
  assert (bodies_ apart_posed = [] ++ torso_link :: [arm_link]) as Hbodies by reflexivity.
  assert (forall b : SeeLink, b ∈ [] ->
            intersectsRay (body b) far_point (vsub (sensor_pos_ apart_posed) far_point) [] 1
            = (false, [])) as Hmiss by (intros b Hin; by apply elem_of_nil in Hin).
  assert (intersectsRay (body torso_link) far_point
            (vsub (sensor_pos_ apart_posed) far_point) [] 1
          = (true, [mkVec3 16 0 0])) as Hhit by by vm_compute.
  assert (dot_nonneg
            (vdiv (vsub (sensor_pos_ apart_posed) far_point)
               (vlength (vsub (sensor_pos_ apart_posed) far_point)))
            (vsub (sensor_pos_ apart_posed) (mkVec3 16 0 0)) = false) as Hdot by by vm_compute.
  apply (first_hit_beyond_sensor_blocks_shadow apart_posed true far_point
           [] torso_link [arm_link] (mkVec3 16 0 0) []
           boxWorld_raysAppend Hbodies Hmiss Hhit Hdot).
Defined.

Lemma no_hit_no_shadow_witness :
  (getMaskIntersection head_posed true near_sensor_side).2 = []
  /\ getMaskIntersection head_posed true near_sensor_side = (OUTSIDE, []).
Proof.
  destruct (no_hit_no_shadow head_posed true near_sensor_side) as (Hcalls & _ & _).
  - intros b ints. rewrite boxWorld_ray_flag. revert b.
    apply Forall_forall, (bool_decide_unpack _). by vm_compute.
  - split; [exact Hcalls|]. by vm_compute.
Defined.

Lemma SHADOW_needs_a_hit_witness :
  (forall b, b ∈ bodies_ head_posed -> containsPoint (unscaledBody b) (mkVec3 5 0 0) = false)
  /\ (min_sensor_dist_ head_posed <= vlength (vsub (sensor_pos_ head_posed) (mkVec3 5 0 0)))%Q.
Proof.
  destruct (SHADOW_needs_a_hit head_posed true (mkVec3 5 0 0)) as (Hunscaled & Hfar & _).
  - by vm_compute.
  - by split.
Defined.

Lemma single_point_without_bodies_witness :
  getMaskContainment bodiless_posed (mkVec3 (-199 # 20) (-10) (-5)) = OUTSIDE
  /\ getMaskIntersection bodiless_posed true (mkVec3 (-199 # 20) (-10) (-5)) = (INSIDE, [])
  /\ r_mask (maskIntersection_pos tf_still (configure nh_robot [] fresh).1.2
               (mkPointCloud "base" 0%Z [mkVec3 (-199 # 20) (-10) (-5)])
               sensor_behind (1 # 10) [] true) = [OUTSIDE].
Proof.
  destruct (single_point_without_bodies bodiless_posed true (mkVec3 (-199 # 20) (-10) (-5)))
    as [Hcontainment Hintersection].
  - reflexivity.
  - split; [exact Hcontainment|]. split; [|by vm_compute].
    rewrite Hintersection. by vm_compute.
Defined.

Lemma configure_accounts_for_every_link_witness :
  linkFailures (configure nh_robot mixed_links fresh).2 = ["wheel"; "frame"]
  /\ length mixed_links
     = length (bodies_ (configure nh_robot mixed_links fresh).1.2)
       + length (unknownLinks robot mixed_links)
       + length (linkFailures (configure nh_robot mixed_links fresh).2).
Proof.
  destruct (configure_accounts_for_every_link boxWorld_laws nh_robot mixed_links fresh robot
              eq_refl) as [Hfailures Hcount].
  split; [|exact Hcount]. rewrite Hfailures. by vm_compute.
Defined.

Lemma no_links_warning_witness :
  WarnNoLinks ∈ (configure nh_robot [mkLinkInfo "wheel" 0 1; mkLinkInfo "gripper" 0 1] fresh).2.
Proof.
  apply (no_links_warning boxWorld_laws nh_robot
           [mkLinkInfo "wheel" 0 1; mkLinkInfo "gripper" 0 1] fresh robot eq_refl).
  apply nil_length_inv. by vm_compute.
Defined.
